(** * Building segmentation and reconstruction engine of lidar-viewer

    Shallow embedding of [process_buildings_improved.py]
    (class [OptimizedBuildingProcessor]).  Coordinates are 64-bit floats in
    the source; they are modelled here as exact rationals [Q].  Euclidean
    distances are compared through their squares ([d <= r] iff
    [d^2 <= r^2] for [r >= 0]), which keeps every test decidable.
    Library calls (numpy, scikit-learn's DBSCAN, Open3D) are modelled from
    their documented algorithms; raising calls return [option]. *)

From Stdlib Require Import List ZArith QArith Qround Qabs Lia Lqa Permutation Bool.
From Stdlib Require String.
Import ListNotations.

Open Scope Q_scope.

(* ------------------------------------------------------------------ *)
(** ** Points and numpy-like helpers *)

Record point := mkp { px : Q; py : Q; pz : Q }.

Definition psub (a b : point) : point :=
  mkp (px a - px b) (py a - py b) (pz a - pz b).

(** Squared Euclidean norm of [a - b] ([np.linalg.norm] squared). *)
Definition dist2 (a b : point) : Q :=
  let d := psub a b in px d * px d + py d * py d + pz d * pz d.

Definition Qltb (a b : Q) : bool := negb (Qle_bool b a).

Fixpoint sumQ (l : list Q) : Q :=
  match l with [] => 0 | x :: r => x + sumQ r end.

(** [points.mean(axis=0)].  The exact rational mean; numpy's float mean
    (sum, then division) may differ from it by rounding, and may even fall
    an ulp outside the range of the values. *)
Definition mean_point (l : list point) : point :=
  let n := inject_Z (Z.of_nat (length l)) in
  mkp (sumQ (map px l) / n) (sumQ (map py l) / n) (sumQ (map pz l) / n).

(** Insertion sort, parametrised by a boolean order. *)
Section Sort.
Variable A : Type.
Variable leb : A -> A -> bool.

Fixpoint insert_sorted (x : A) (l : list A) : list A :=
  match l with
  | [] => [x]
  | y :: r => if leb x y then x :: y :: r else y :: insert_sorted x r
  end.

Fixpoint isort (l : list A) : list A :=
  match l with [] => [] | x :: r => insert_sorted x (isort r) end.

Lemma insert_sorted_perm x l : Permutation (x :: l) (insert_sorted x l).
Proof.
  induction l as [|y r IH]; simpl; [auto|].
  destruct (leb x y); [auto|].
  eapply perm_trans; [apply perm_swap|]. constructor. exact IH.
Qed.

Lemma isort_perm l : Permutation l (isort l).
Proof.
  induction l as [|x r IH]; simpl; [auto|].
  eapply perm_trans; [|apply insert_sorted_perm]. constructor. exact IH.
Qed.
End Sort.
Arguments isort {A} leb l.

Definition Z2_eq_dec : forall a b : Z * Z, {a = b} + {a <> b}.
Proof. decide equality; apply Z.eq_dec. Defined.

Definition Z2_eqb (a b : Z * Z) : bool := if Z2_eq_dec a b then true else false.

Definition Z2_leb (a b : Z * Z) : bool :=
  (fst a <? fst b)%Z || ((fst a =? fst b)%Z && (snd a <=? snd b)%Z).

(** [np.unique]: the sorted distinct values. *)
Definition np_unique_Z (l : list Z) : list Z := isort Z.leb (nodup Z.eq_dec l).
Definition np_unique_Z2 (l : list (Z * Z)) : list (Z * Z) :=
  isort Z2_leb (nodup Z2_eq_dec l).

Lemma np_unique_Z_In l x : In x (np_unique_Z l) <-> In x l.
Proof.
  unfold np_unique_Z. split; intro H.
  - apply (nodup_In Z.eq_dec). eapply Permutation_in; [symmetry; apply isort_perm|]. exact H.
  - eapply Permutation_in; [apply isort_perm|]. apply nodup_In. exact H.
Qed.

Lemma np_unique_Z_NoDup l : NoDup (np_unique_Z l).
Proof.
  unfold np_unique_Z. eapply Permutation_NoDup; [apply isort_perm|]. apply NoDup_nodup.
Qed.

Lemma np_unique_Z2_In l x : In x (np_unique_Z2 l) <-> In x l.
Proof.
  unfold np_unique_Z2. split; intro H.
  - apply (nodup_In Z2_eq_dec). eapply Permutation_in; [symmetry; apply isort_perm|]. exact H.
  - eapply Permutation_in; [apply isort_perm|]. apply nodup_In. exact H.
Qed.


(** Boolean-mask selection [xs[mask]] with the mask given by a predicate
    on (index, element); [np.where(mask)[0]] keeps the indices. *)
Definition enumerate {A} (l : list A) : list (nat * A) := combine (seq 0 (length l)) l.

Definition np_where {A} (f : A -> bool) (l : list A) : list nat :=
  map fst (filter (fun ip => f (snd ip)) (enumerate l)).

(** Order facts on [Q] used by the proofs below. *)
Lemma Qltb_spec a b : Qltb a b = true <-> a < b.
Proof.
  unfold Qltb. rewrite Bool.negb_true_iff. split.
  - intro H. apply Qnot_le_lt. intro C. apply Qle_bool_iff in C. congruence.
  - intro H. destruct (Qle_bool b a) eqn:E; [|reflexivity].
    apply Qle_bool_iff in E. exfalso. apply (Qlt_not_le _ _ H E).
Qed.

Lemma dist2_nonneg a b : 0 <= dist2 a b.
Proof.
  unfold dist2. destruct (psub a b) as [x y z]. simpl. nra.
Qed.

(* ------------------------------------------------------------------ *)
(** ** [create_spatial_grid] *)
Module Grid.

(** [(np.floor(x / grid_size).astype(int), np.floor(y / grid_size).astype(int))] *)
Definition grid_key (grid_size : Q) (p : point) : Z * Z :=
  (Qfloor (px p / grid_size), Qfloor (py p / grid_size)).

(** The dictionary [{(cx, cy): indices}] as an association list in
    insertion order.  The loop runs over [np.unique(...)], whose keys are
    distinct, so each assignment [grid_cells[(cx, cy)] = indices] adds a
    new entry. *)
Definition create_spatial_grid (grid_size : Q) (points : list point)
  : list ((Z * Z) * list nat) :=
  let keys := map (grid_key grid_size) points in
  let unique_cells := np_unique_Z2 keys in
  let cell_entry cell := (cell, np_where (fun k => Z2_eqb k cell) keys) in
  filter (fun e => (0 <? length (snd e))%nat) (map cell_entry unique_cells).

Lemma in_enumerate_from {A} (l : list A) k i a :
  In (i, a) (combine (seq k (length l)) l) <-> (k <= i)%nat /\ nth_error l (i - k) = Some a.
Proof.
  revert k. induction l as [|x r IH]; intro k; simpl.
  - split; [tauto|]. intros [_ H]. destruct (i - k)%nat; discriminate.
  - rewrite IH. split.
    + intros [H|[H1 H2]].
      * inversion H; subst. rewrite Nat.sub_diag. simpl. split; [lia|reflexivity].
      * split; [lia|]. replace (i - k)%nat with (S (i - S k)) by lia. exact H2.
    + intros [H1 H2]. destruct (Nat.eq_dec i k) as [->|Hne].
      * left. rewrite Nat.sub_diag in H2. simpl in H2. inversion H2. reflexivity.
      * right. split; [lia|]. replace (i - k)%nat with (S (i - S k)) in H2 by lia. exact H2.
Qed.

Lemma in_np_where {A} (f : A -> bool) l i :
  In i (np_where f l) <-> exists a, nth_error l i = Some a /\ f a = true.
Proof.
  unfold np_where, enumerate. rewrite in_map_iff. split.
  - intros [[j a] [Hj Hin]]. simpl in Hj. subst j.
    apply filter_In in Hin as [Hin Hf]. apply in_enumerate_from in Hin as [_ Hn].
    rewrite Nat.sub_0_r in Hn. exists a. auto.
  - intros [a [Hn Hf]]. exists (i, a). split; [reflexivity|].
    apply filter_In. split; [|exact Hf]. apply in_enumerate_from.
    rewrite Nat.sub_0_r. split; [lia|exact Hn].
Qed.

Lemma Z2_eqb_true a b : Z2_eqb a b = true <-> a = b.
Proof. unfold Z2_eqb. destruct (Z2_eq_dec a b); split; congruence. Qed.

Lemma grid_entry_shape g pts c idx :
  In (c, idx) (create_spatial_grid g pts) ->
  idx = np_where (fun k => Z2_eqb k c) (map (grid_key g) pts) /\ idx <> [] /\
  In c (map (grid_key g) pts).
Proof.
  unfold create_spatial_grid. intro H. apply filter_In in H as [H Hlen].
  apply in_map_iff in H as [c' [Heq Hc]]. inversion Heq; subst c' idx.
  rewrite np_unique_Z2_In in Hc. simpl in Hlen.
  split; [reflexivity|]. split; [|exact Hc].
  intro E. rewrite E in Hlen. discriminate.
Qed.

Lemma grid_keys_fst g pts :
  map fst (create_spatial_grid g pts) =
  filter (fun c => (0 <? length (np_where (fun k => Z2_eqb k c) (map (grid_key g) pts)))%nat)
         (np_unique_Z2 (map (grid_key g) pts)).
Proof.
  unfold create_spatial_grid.
  induction (np_unique_Z2 (map (grid_key g) pts)) as [|c r IH]; simpl; [reflexivity|].
  destruct (0 <? _)%nat; simpl; rewrite ?IH; reflexivity.
Qed.

End Grid.

(* ------------------------------------------------------------------ *)
(** ** scikit-learn's [DBSCAN(...).fit_predict]

    [DBSCAN.fit] computes the radius neighbourhoods ([dist <= eps], the
    point itself included), marks as core the points whose neighbourhood
    has at least [min_samples] members, and runs [dbscan_inner]:

<<
    for i in range(labels.shape[0]):
        if labels[i] != -1 or not is_core[i]:
            continue
        while True:
            if labels[i] == -1:
                labels[i] = label_num
                if is_core[i]:
                    for v in neighborhoods[i]:
                        if labels[v] == -1:
                            push(stack, v)
            if stack.size() == 0:
                break
            i = stack.back(); stack.pop_back()
        label_num += 1
>>

    The stack is a list whose head is its top.  The DFS of one label runs
    on fuel; [dbscan_fuel] is enough fuel (see [dfs_invariant]). *)
Module Dbscan.

Definition NOISE : Z := (-1)%Z.

Definition get (labels : list Z) (i : nat) : Z := nth i labels NOISE.

(** [labels[i] = v] *)
Fixpoint upd (labels : list Z) (i : nat) (v : Z) : list Z :=
  match labels, i with
  | [], _ => []
  | _ :: r, O => v :: r
  | a :: r, S k => a :: upd r k v
  end.

Definition unlabeled (labels : list Z) (v : nat) : bool := (get labels v =? NOISE)%Z.

Fixpoint dfs (fuel : nat) (is_core : nat -> bool) (nbrs : nat -> list nat)
    (labels : list Z) (stack : list nat) (label_num : Z) : list Z :=
  match fuel with
  | O => labels
  | S f =>
    match stack with
    | [] => labels
    | i :: st =>
      if unlabeled labels i then
        let labels' := upd labels i label_num in
        let pushed :=
          if is_core i then rev (filter (unlabeled labels') (nbrs i)) else [] in
        dfs f is_core nbrs labels' (pushed ++ st) label_num
      else dfs f is_core nbrs labels st label_num
    end
  end.

Fixpoint outer (fuel : nat) (is_core : nat -> bool) (nbrs : nat -> list nat)
    (todo : list nat) (labels : list Z) (label_num : Z) : list Z :=
  match todo with
  | [] => labels
  | i :: r =>
    if unlabeled labels i && is_core i then
      outer fuel is_core nbrs r (dfs fuel is_core nbrs labels [i] label_num)
            (label_num + 1)%Z
    else outer fuel is_core nbrs r labels label_num
  end.

Definition dbscan_fuel (n : nat) : nat := (n * (n + 1) + 1)%nat.

Definition dbscan_inner (n : nat) (is_core : nat -> bool) (nbrs : nat -> list nat)
  : list Z :=
  outer (dbscan_fuel n) is_core nbrs (seq 0 n) (repeat NOISE n) 0%Z.

Definition origin : point := mkp 0 0 0.

(** [NearestNeighbors(radius=eps).radius_neighbors(X)] for one query
    point, in index order. *)
Definition neighborhood (eps : Q) (X : list point) (p : point) : list nat :=
  np_where (fun q => Qle_bool (dist2 p q) (eps * eps)) X.

(** Parameter validation raises for [eps <= 0], [min_samples < 1] and an
    empty sample set. *)
Definition fit_predict (eps : Q) (min_samples : nat) (X : list point)
  : option (list Z) :=
  if Qle_bool eps 0 || (min_samples =? 0)%nat || (length X =? 0)%nat then None
  else
    let hoods := map (neighborhood eps X) X in
    let nbrs i := nth i hoods [] in
    let is_core i := (min_samples <=? length (nbrs i))%nat in
    Some (dbscan_inner (length X) is_core nbrs).

Lemma upd_length l i v : length (upd l i v) = length l.
Proof. revert i; induction l as [|a r IH]; intros [|i]; simpl; auto. Qed.

Lemma get_upd l i v j :
  (i < length l)%nat -> get (upd l i v) j = if Nat.eqb j i then v else get l j.
Proof.
  unfold get. revert i j; induction l as [|a r IH]; intros i j Hi; simpl in *; [lia|].
  destruct i, j; simpl; auto. apply IH. lia.
Qed.

Lemma get_out l j : (length l <= j)%nat -> get l j = NOISE.
Proof. intro H. unfold get. apply nth_overflow. exact H. Qed.

Lemma in_rev_iff {A} (l : list A) x : In x (rev l) <-> In x l.
Proof. symmetry. apply in_rev. Qed.

Lemma filter_length_le' {A} (f : A -> bool) l : (length (filter f l) <= length l)%nat.
Proof. induction l as [|a r IH]; simpl; [lia|]. destruct (f a); simpl; lia. Qed.

(** Invariants of [dfs] and [outer] over [n] points whose
    neighbourhoods are duplicate-free, in range and symmetric. *)
Section DfsInvariant.
Variable n : nat.
Variable is_core : nat -> bool.
Variable nbrs : nat -> list nat.
Hypothesis nbrs_bound : forall i j, In j (nbrs i) -> (j < n)%nat.
Hypothesis nbrs_nodup : forall i, NoDup (nbrs i).
Hypothesis nbrs_sym : forall i j, (i < n)%nat -> In j (nbrs i) -> In i (nbrs j).

Definition labeled (l : list Z) (x : nat) : Prop := get l x <> NOISE.

(** Every unlabelled neighbour of a labelled core point is waiting on
    the stack of the current label. *)
Definition Inv1 (l : list Z) (st : list nat) (L : Z) : Prop :=
  forall x y, (x < n)%nat -> is_core x = true -> labeled l x -> In y (nbrs x) ->
    labeled l y \/ (get l x = L /\ In y st).

(** Labelled core neighbours share their label. *)
Definition Inv2 (l : list Z) : Prop :=
  forall x y, (x < n)%nat -> (y < n)%nat -> is_core x = true -> is_core y = true ->
    labeled l x -> labeled l y -> In y (nbrs x) -> get l x = get l y.

Definition Closed (l : list Z) : Prop :=
  forall x y, (x < n)%nat -> is_core x = true -> labeled l x -> In y (nbrs x) ->
    labeled l y.

Definition unl_count (l : list Z) : nat := length (filter (unlabeled l) (seq 0 n)).

Lemma unl_count_le l : (unl_count l <= n)%nat.
Proof. unfold unl_count. rewrite <- (length_seq n 0) at 2. apply filter_length_le'. Qed.

Lemma unl_count_upd l x L :
  length l = n -> (x < n)%nat -> unlabeled l x = true -> L <> NOISE ->
  S (unl_count (upd l x L)) = unl_count l.
Proof.
  intros Hl Hx Hu HL. unfold unl_count.
  replace n with (x + S (n - S x))%nat by lia.
  rewrite !seq_app, !filter_app. simpl.
  assert (Hx' : unlabeled (upd l x L) x = false).
  { unfold unlabeled. rewrite get_upd by lia. rewrite Nat.eqb_refl.
    apply Z.eqb_neq. exact HL. }
  rewrite Hu, Hx'.
  rewrite (filter_ext_in (unlabeled (upd l x L)) (unlabeled l) (seq 0 x)).
  2:{ intros y Hy. apply in_seq in Hy. unfold unlabeled. rewrite get_upd by lia.
      destruct (Nat.eqb_spec y x); [lia|reflexivity]. }
  rewrite (filter_ext_in (unlabeled (upd l x L)) (unlabeled l) (seq (S x) _)).
  2:{ intros y Hy. apply in_seq in Hy. unfold unlabeled. rewrite get_upd by lia.
      destruct (Nat.eqb_spec y x); [lia|reflexivity]. }
  rewrite !length_app. simpl. lia.
Qed.

Lemma pushed_le l x : (length (filter (unlabeled l) (nbrs x)) <= unl_count l)%nat.
Proof.
  apply NoDup_incl_length; [apply NoDup_filter, nbrs_nodup|].
  intros y Hy. apply filter_In in Hy as [Hy Hu]. apply filter_In. split; [|exact Hu].
  apply in_seq. pose proof (nbrs_bound _ _ Hy). lia.
Qed.

Lemma unlabeled_false l x : unlabeled l x = false <-> labeled l x.
Proof. unfold unlabeled, labeled. rewrite Z.eqb_neq. tauto. Qed.

Lemma dfs_invariant fuel l st L :
  (0 <= L)%Z -> length l = n -> (forall y, In y st -> (y < n)%nat) ->
  Inv1 l st L -> Inv2 l ->
  (unl_count l * (n + 1) + length st <= fuel)%nat ->
  let r := dfs fuel is_core nbrs l st L in
  length r = n /\ Closed r /\ Inv2 r /\
  (forall y, labeled l y -> get r y = get l y) /\
  (forall y, In y st -> labeled r y).
Proof.
  revert l st. induction fuel as [|f IH]; intros l st HL Hlen Hst H1 H2 Hf r.
  - destruct st as [|x st]; simpl in Hf; [|lia]. subst r. simpl.
    split; [exact Hlen|]. split; [|split; [exact H2|split; [auto|]]].
    + intros x y Hx Hc Hlx Hy. destruct (H1 x y Hx Hc Hlx Hy) as [?|[_ []]]; auto.
    + intros y [].
  - destruct st as [|x st].
    + subst r. simpl.
      split; [exact Hlen|]. split; [|split; [exact H2|split; [auto|]]].
      * intros x y Hx Hc Hlx Hy. destruct (H1 x y Hx Hc Hlx Hy) as [?|[_ []]]; auto.
      * intros y [].
    + assert (Hxn : (x < n)%nat) by (apply Hst; left; reflexivity).
      assert (HLN : L <> NOISE) by (unfold NOISE; lia).
      simpl in r. destruct (unlabeled l x) eqn:Ex.
      * set (l' := upd l x L) in r.
        set (pushed := if is_core x then rev (filter (unlabeled l') (nbrs x)) else []) in r.
        assert (Hget : forall y, get l' y = if Nat.eqb y x then L else get l y).
        { intro y. unfold l'. apply get_upd. lia. }
        assert (Hlx : ~ labeled l x) by (rewrite <- unlabeled_false; congruence).
        assert (Hl'x : labeled l' x) by (unfold labeled; rewrite Hget, Nat.eqb_refl; exact HLN).
        assert (Hkeep : forall y, labeled l y -> labeled l' y /\ get l' y = get l y).
        { intros y Hy. unfold labeled in *. rewrite Hget.
          destruct (Nat.eqb_spec y x) as [->|]; [contradiction|auto]. }
        assert (Hcount : S (unl_count l') = unl_count l) by (apply unl_count_upd; auto).
        assert (Hpush : (length pushed <= unl_count l')%nat).
        { unfold pushed. destruct (is_core x); simpl; [|lia].
          rewrite length_rev. apply pushed_le. }
        destruct (IH l' (pushed ++ st)) as [Ra [Rb [Rc [Rd Re]]]]; auto.
        -- unfold l'. rewrite upd_length. exact Hlen.
        -- intros y Hy. apply in_app_or in Hy as [Hy|Hy]; [|apply Hst; right; exact Hy].
           unfold pushed in Hy. destruct (is_core x); [|contradiction].
           apply in_rev_iff, filter_In in Hy as [Hy _]. eapply nbrs_bound; eauto.
        -- intros z y Hz Hc Hlz Hy.
           destruct (Nat.eqb_spec z x) as [->|Hzx].
           ++ destruct (unlabeled l' y) eqn:Ey.
              ** right. split; [rewrite Hget, Nat.eqb_refl; reflexivity|].
                 apply in_or_app. left. unfold pushed. rewrite Hc.
                 apply in_rev_iff, filter_In. auto.
              ** left. apply unlabeled_false. exact Ey.
           ++ assert (Hlz0 : labeled l z).
              { unfold labeled in *. rewrite Hget in Hlz.
                destruct (Nat.eqb_spec z x); [contradiction|exact Hlz]. }
              destruct (H1 z y Hz Hc Hlz0 Hy) as [Hly|[HzL Hin]].
              ** left. apply Hkeep. exact Hly.
              ** destruct Hin as [<-|Hin].
                 --- left. exact Hl'x.
                 --- right. split; [rewrite Hget; destruct (Nat.eqb_spec z x); [contradiction|exact HzL]|].
                     apply in_or_app. right. exact Hin.
        -- intros z y Hz Hy Hcz Hcy Hlz Hly Hzy. rewrite !Hget.
           destruct (Nat.eqb_spec z x) as [->|Hzx]; destruct (Nat.eqb_spec y x) as [->|Hyx].
           ++ reflexivity.
           ++ assert (Hly0 : labeled l y).
              { unfold labeled in *. rewrite Hget in Hly.
                destruct (Nat.eqb_spec y x); [contradiction|exact Hly]. }
              destruct (H1 y x Hy Hcy Hly0 (nbrs_sym _ _ Hz Hzy)) as [Hc'|[HyL _]];
                [contradiction|symmetry; exact HyL].
           ++ assert (Hlz0 : labeled l z).
              { unfold labeled in *. rewrite Hget in Hlz.
                destruct (Nat.eqb_spec z x); [contradiction|exact Hlz]. }
              destruct (H1 z x Hz Hcz Hlz0 Hzy) as [Hc'|[HzL _]]; [contradiction|exact HzL].
           ++ apply H2; auto.
              ** unfold labeled in *. rewrite Hget in Hlz.
                 destruct (Nat.eqb_spec z x); [contradiction|exact Hlz].
              ** unfold labeled in *. rewrite Hget in Hly.
                 destruct (Nat.eqb_spec y x); [contradiction|exact Hly].
        -- rewrite length_app. simpl in Hf. pose proof (unl_count_le l). nia.
        -- split; [exact Ra|]. split; [exact Rb|]. split; [exact Rc|]. split.
           ++ intros y Hy. destruct (Hkeep y Hy) as [Hy' Heq]. rewrite Rd by exact Hy'. exact Heq.
           ++ intros y [<-|Hy].
              ** unfold labeled. rewrite Rd by exact Hl'x. exact Hl'x.
              ** apply Re. apply in_or_app. right. exact Hy.
      * assert (Hlx : labeled l x) by (apply unlabeled_false; exact Ex).
        destruct (IH l st) as [Ra [Rb [Rc [Rd Re]]]]; auto.
        -- intros y Hy. apply Hst. right. exact Hy.
        -- intros z y Hz Hc Hlz Hy. destruct (H1 z y Hz Hc Hlz Hy) as [?|[HzL [<-|Hin]]]; auto.
        -- simpl in Hf. lia.
        -- split; [exact Ra|]. split; [exact Rb|]. split; [exact Rc|]. split; [exact Rd|].
           intros y [<-|Hy]; [|auto]. unfold labeled. rewrite Rd by exact Hlx. exact Hlx.
Qed.

Lemma outer_invariant todo l L :
  (0 <= L)%Z -> length l = n -> (forall y, In y todo -> (y < n)%nat) ->
  Closed l -> Inv2 l ->
  let r := outer (dbscan_fuel n) is_core nbrs todo l L in
  length r = n /\ Closed r /\ Inv2 r /\
  (forall y, labeled l y -> get r y = get l y) /\
  (forall y, In y todo -> is_core y = true -> labeled r y).
Proof.
  revert l L. induction todo as [|i todo IH]; intros l L HL Hlen Ht Hc H2 r.
  - subst r. simpl. repeat split; auto. intros y [].
  - simpl in r. destruct (unlabeled l i && is_core i) eqn:E.
    + apply andb_true_iff in E as [Eu Ec].
      destruct (dfs_invariant (dbscan_fuel n) l [i] L) as [Da [Db [Dc [Dd De]]]]; auto.
      * intros y [<-|[]]. apply Ht. left. reflexivity.
      * intros x y Hx Hcx Hlx Hy. left. eapply Hc; eauto.
      * unfold dbscan_fuel. simpl. pose proof (unl_count_le l). nia.
      * destruct (IH (dfs (dbscan_fuel n) is_core nbrs l [i] L) (L + 1)%Z) as [Ra [Rb [Rc [Rd Re]]]];
          [lia|exact Da|intros; apply Ht; right; auto|exact Db|exact Dc|].
        split; [exact Ra|]. split; [exact Rb|]. split; [exact Rc|]. split.
        -- intros y Hy.
           assert (Hy' : labeled (dfs (dbscan_fuel n) is_core nbrs l [i] L) y)
             by (unfold labeled; rewrite Dd; auto).
           rewrite Rd by exact Hy'. apply Dd. exact Hy.
        -- intros y [<-|Hy] Hcy; [|auto].
           assert (Hl : labeled (dfs (dbscan_fuel n) is_core nbrs l [i] L) i)
             by (apply De; left; reflexivity).
           unfold labeled. rewrite Rd; auto.
    + destruct (IH l L) as [Ra [Rb [Rc [Rd Re]]]];
        [exact HL|exact Hlen|intros; apply Ht; right; auto|exact Hc|exact H2|].
      split; [exact Ra|]. split; [exact Rb|]. split; [exact Rc|]. split; [exact Rd|].
      intros y [<-|Hy] Hcy; [|auto].
      rewrite Hcy, andb_true_r in E. apply unlabeled_false in E.
      change (labeled r i).
      unfold labeled. rewrite Rd; auto.
Qed.

Lemma dbscan_inner_spec :
  let r := dbscan_inner n is_core nbrs in
  length r = n /\ Closed r /\ Inv2 r /\
  (forall y, (y < n)%nat -> is_core y = true -> labeled r y).
Proof.
  assert (H0 : forall y, ~ labeled (repeat NOISE n) y).
  { intros y Hy. apply Hy. unfold get. apply nth_repeat. }
  destruct (outer_invariant (seq 0 n) (repeat NOISE n) 0%Z) as [Ra [Rb [Rc [_ Re]]]].
  - lia.
  - apply repeat_length.
  - intros y Hy. apply in_seq in Hy. lia.
  - intros x y _ _ Hx. exfalso. exact (H0 x Hx).
  - intros x y _ _ _ _ Hx. exfalso. exact (H0 x Hx).
  - intro r. split; [exact Ra|]. split; [exact Rb|]. split; [exact Rc|].
    intros y Hy Hcy. apply Re; [apply in_seq; lia|exact Hcy].
Qed.
End DfsInvariant.

Lemma np_where_from_NoDup {A} (f : A -> bool) (l : list A) k :
  NoDup (map fst (filter (fun ip => f (snd ip)) (combine (seq k (length l)) l))).
Proof.
  revert k. induction l as [|a r IH]; intro k; simpl; [constructor|].
  destruct (f a); simpl; [|apply IH]. constructor; [|apply IH].
  intro Hin. apply in_map_iff in Hin as [[i b] [Hi Hin]]. simpl in Hi. subst i.
  apply filter_In in Hin as [Hin _]. apply Grid.in_enumerate_from in Hin. lia.
Qed.

Lemma np_where_NoDup {A} (f : A -> bool) (l : list A) : NoDup (np_where f l).
Proof. apply np_where_from_NoDup. Qed.

Lemma dist2_sym a b : dist2 a b == dist2 b a.
Proof. unfold dist2, psub. simpl. ring. Qed.

Lemma dist2_self a : dist2 a a == 0.
Proof. unfold dist2, psub. simpl. ring. Qed.

Lemma in_neighborhood eps X p j :
  In j (neighborhood eps X p) <->
  (j < length X)%nat /\ Qle_bool (dist2 p (nth j X origin)) (eps * eps) = true.
Proof.
  unfold neighborhood. rewrite Grid.in_np_where. split.
  - intros [a [Ha Hf]]. assert (Hj : (j < length X)%nat) by (apply nth_error_Some; congruence).
    apply nth_error_nth with (d := origin) in Ha. rewrite Ha. auto.
  - intros [Hj Hf]. exists (nth j X origin). split; [apply nth_error_nth'; exact Hj|exact Hf].
Qed.

Lemma hood_nth eps X i :
  (i < length X)%nat ->
  nth i (map (neighborhood eps X) X) [] = neighborhood eps X (nth i X origin).
Proof.
  intro Hi. rewrite (nth_indep _ [] (neighborhood eps X origin)) by (rewrite length_map; exact Hi).
  apply map_nth.
Qed.

Lemma hood_out eps X i :
  (length X <= i)%nat -> nth i (map (neighborhood eps X) X) [] = [].
Proof. intro Hi. apply nth_overflow. rewrite length_map. exact Hi. Qed.

(** What [fit_predict] guarantees: one label per sample, every core
    sample is labelled, and core samples within [eps] of each other carry
    the same label. *)
Lemma fit_predict_spec eps ms X labels :
  fit_predict eps ms X = Some labels ->
  let core i := (ms <=? length (neighborhood eps X (nth i X origin)))%nat in
  length labels = length X /\
  (forall i, (i < length X)%nat -> core i = true -> get labels i <> NOISE) /\
  (forall i j, (i < length X)%nat -> (j < length X)%nat -> core i = true -> core j = true ->
     Qle_bool (dist2 (nth i X origin) (nth j X origin)) (eps * eps) = true ->
     get labels i = get labels j).
Proof.
  intros H core. unfold fit_predict in H.
  destruct (Qle_bool eps 0 || (ms =? 0)%nat || (length X =? 0)%nat); [discriminate|].
  injection H as H'. subst labels.
  set (n := length X). set (hoods := map (neighborhood eps X) X).
  set (nbrs := fun i => nth i hoods []).
  set (is_core := fun i => (ms <=? length (nbrs i))%nat).
  assert (Hnb : forall i, (i < n)%nat -> nbrs i = neighborhood eps X (nth i X origin))
    by (intros; apply hood_nth; auto).
  assert (Hno : forall i, (n <= i)%nat -> nbrs i = []) by (intros; apply hood_out; auto).
  assert (Hcore : forall i, (i < n)%nat -> is_core i = core i)
    by (intros i Hi; unfold is_core, core; rewrite Hnb; auto).
  assert (Hb : forall i j, In j (nbrs i) -> (j < n)%nat).
  { intros i j Hj. destruct (Nat.lt_ge_cases i n) as [Hi|Hi].
    - rewrite Hnb in Hj by exact Hi. apply in_neighborhood in Hj. tauto.
    - rewrite Hno in Hj by exact Hi. contradiction. }
  assert (Hd : forall i, NoDup (nbrs i)).
  { intro i. destruct (Nat.lt_ge_cases i n) as [Hi|Hi].
    - rewrite Hnb by exact Hi. apply np_where_NoDup.
    - rewrite Hno by exact Hi. constructor. }
  assert (Hs : forall i j, (i < n)%nat -> In j (nbrs i) -> In i (nbrs j)).
  { intros i j Hi Hj. pose proof (Hb _ _ Hj) as Hjn.
    rewrite Hnb in * by assumption. apply in_neighborhood in Hj as [_ Hj].
    apply in_neighborhood. split; [exact Hi|].
    apply Qle_bool_iff. apply Qle_bool_iff in Hj. rewrite dist2_sym. exact Hj. }
  destruct (dbscan_inner_spec n is_core nbrs Hb Hd Hs) as [Ra [_ [Rc Rd]]].
  split; [exact Ra|]. split.
  - intros i Hi Hc. apply Rd; [exact Hi|rewrite Hcore; auto].
  - intros i j Hi Hj Hci Hcj Hd2. apply Rc; auto; try (rewrite Hcore; auto).
    + apply Rd; [exact Hi|rewrite Hcore; auto].
    + apply Rd; [exact Hj|rewrite Hcore; auto].
    + rewrite Hnb by exact Hi. apply in_neighborhood. auto.
Qed.

(** With [min_samples = 1] every sample is a core sample. *)
Lemma fit_predict_ms1 eps X labels :
  fit_predict eps 1 X = Some labels ->
  length labels = length X /\
  (forall i, (i < length X)%nat -> get labels i <> NOISE) /\
  (forall i j, (i < length X)%nat -> (j < length X)%nat ->
     Qle_bool (dist2 (nth i X origin) (nth j X origin)) (eps * eps) = true ->
     get labels i = get labels j).
Proof.
  intro H. destruct (fit_predict_spec _ _ _ _ H) as [Ra [Rb Rc]].
  assert (Hc : forall i, (i < length X)%nat ->
            (1 <=? length (neighborhood eps X (nth i X origin)))%nat = true).
  { intros i Hi. apply Nat.leb_le.
    destruct (neighborhood eps X (nth i X origin)) eqn:E; simpl; [|lia].
    assert (Hin : In i (neighborhood eps X (nth i X origin))).
    { apply in_neighborhood. split; [exact Hi|]. apply Qle_bool_iff.
      rewrite dist2_self. destruct eps as [a b]. unfold Qle, Qmult. simpl. nia. }
    rewrite E in Hin. contradiction. }
  split; [exact Ra|]. split; [intros; apply Rb; auto|]. intros; apply Rc; auto.
Qed.

End Dbscan.

(* ------------------------------------------------------------------ *)
(** ** numpy reductions along one axis *)

Definition qmin (a b : Q) : Q := if Qle_bool a b then a else b.
Definition qmax (a b : Q) : Q := if Qle_bool a b then b else a.

(** [xs.min()] / [xs.max()]; numpy raises on an empty array. *)
Definition np_min (l : list Q) : option Q :=
  match l with [] => None | x :: r => Some (fold_left qmin r x) end.
Definition np_max (l : list Q) : option Q :=
  match l with [] => None | x :: r => Some (fold_left qmax r x) end.

(* ------------------------------------------------------------------ *)
(** ** [downsample_points]: Open3D voxel grid and scipy's [cKDTree.query]

    [voxel_down_sample(v)] (Open3D) raises for [v <= 0]; otherwise it
    shifts the bounding box by half a voxel, keys every point by
    [floor((p - (min_bound - v/2)) / v)] and returns, per occupied voxel,
    the mean of its points.  Open3D iterates a hash map, so the output
    order is unspecified; first-occurrence order is used here.  Its guard
    against more than [2^31] voxels per axis is not modelled.

    The voxel size [diagonal / np.cbrt(target_size)] is in general
    irrational, so [downsample_points] takes it as an argument; the
    relation [voxel_size_of] characterises the value the code computes. *)
Module Downsample.

Definition Z3 := (Z * Z * Z)%type.

Definition Z3_eq_dec : forall a b : Z3, {a = b} + {a <> b}.
Proof. decide equality; [|decide equality]; apply Z.eq_dec. Defined.

Definition Z3_eqb (a b : Z3) : bool := if Z3_eq_dec a b then true else false.

(** [pcd.get_min_bound()] / [pcd.get_max_bound()] (the zero vector for an
    empty cloud). *)
Definition axis_min (f : point -> Q) (l : list point) : Q :=
  match np_min (map f l) with Some m => m | None => 0 end.
Definition axis_max (f : point -> Q) (l : list point) : Q :=
  match np_max (map f l) with Some m => m | None => 0 end.

Definition min_bound (l : list point) : point := mkp (axis_min px l) (axis_min py l) (axis_min pz l).
Definition max_bound (l : list point) : point := mkp (axis_max px l) (axis_max py l) (axis_max pz l).

(** Squared length of the bounding-box diagonal. *)
Definition diag2 (l : list point) : Q := dist2 (max_bound l) (min_bound l).

(** [v = diagonal / cbrt(target_size)], i.e. [v >= 0] and
    [v^6 * target_size^2 = diagonal^6]. *)
Definition voxel_size_of (l : list point) (target_size : nat) (v : Q) : Prop :=
  0 <= v /\
  v * v * v * v * v * v * inject_Z (Z.of_nat target_size) * inject_Z (Z.of_nat target_size)
    == diag2 l * diag2 l * diag2 l.

Definition voxel_index (v : Q) (mn : point) (p : point) : Z3 :=
  (Qfloor ((px p - (px mn - v / 2)) / v),
   Qfloor ((py p - (py mn - v / 2)) / v),
   Qfloor ((pz p - (pz mn - v / 2)) / v)).

Definition voxel_down_sample (v : Q) (points : list point) : option (list point) :=
  if Qle_bool v 0 then None
  else
    let mn := min_bound points in
    let keys := map (voxel_index v mn) points in
    let members k := map snd (filter (fun kp => Z3_eqb (fst kp) k) (combine keys points)) in
    Some (map (fun k => mean_point (members k)) (nodup Z3_eq_dec keys)).

(** [cKDTree(points).query(q)]: index of a nearest point (the first one
    on ties; cKDTree may return another of the tied indices, and no
    property below depends on which one). *)
Fixpoint argmin_from (q : point) (l : list (nat * point)) (best : nat * Q) : nat * Q :=
  match l with
  | [] => best
  | (j, p) :: r =>
    argmin_from q r (if Qltb (dist2 q p) (snd best) then (j, dist2 q p) else best)
  end.

Definition nearest (points : list point) (q : point) : nat :=
  match enumerate points with
  | [] => 0%nat
  | (j, p) :: r => fst (argmin_from q r (j, dist2 q p))
  end.

Definition downsample_points (points : list point) (target_size : nat) (voxel_size : Q)
  : option (list point * list nat) :=
  if (length points <=? target_size)%nat then Some (points, seq 0 (length points))
  else
    match voxel_down_sample voxel_size points with
    | None => None
    | Some downsampled => Some (downsampled, map (nearest points) downsampled)
    end.

Lemma argmin_from_in q l best :
  fst (argmin_from q l best) = fst best \/ In (fst (argmin_from q l best)) (map fst l).
Proof.
  revert best. induction l as [|[j p] r IH]; intro best; simpl; [auto|].
  destruct (IH (if Qltb (dist2 q p) (snd best) then (j, dist2 q p) else best)) as [H|H];
    [|right; right; exact H].
  rewrite H. destruct (Qltb _ _); simpl; auto.
Qed.

Lemma nearest_lt points q : (0 < length points)%nat -> (nearest points q < length points)%nat.
Proof.
  intro Hn. unfold nearest.
  assert (Hin : forall j, In j (map fst (enumerate points)) -> (j < length points)%nat).
  { intros j Hj. apply in_map_iff in Hj as [[j' p] [Hj Hjp]]. simpl in Hj. subst j'.
    unfold enumerate in Hjp. apply Grid.in_enumerate_from in Hjp as [_ Hp].
    rewrite Nat.sub_0_r in Hp. apply nth_error_Some. congruence. }
  destruct (enumerate points) as [|[j p] r] eqn:E.
  - unfold enumerate in E. destruct points; [simpl in Hn; lia|discriminate].
  - destruct (argmin_from_in q r (j, dist2 q p)) as [H|H]; rewrite ?H; apply Hin; simpl; auto.
Qed.

Lemma voxel_down_sample_length v points down :
  voxel_down_sample v points = Some down -> (length down <= length points)%nat.
Proof.
  unfold voxel_down_sample. destruct (Qle_bool v 0); [discriminate|].
  intro H. injection H as <-. rewrite length_map.
  rewrite <- (length_map (voxel_index v (min_bound points)) points).
  apply NoDup_incl_length; [apply NoDup_nodup|]. intros k Hk. apply nodup_In in Hk. exact Hk.
Qed.
End Downsample.

(* ------------------------------------------------------------------ *)
(** ** [merge_adjacent_clusters] and [segment_buildings_optimized] *)
Module Segmentation.

(** [xs[labels == label]] *)
Definition mask_select (xs : list point) (labels : list Z) (label : Z) : list point :=
  map fst (filter (fun pl => Z.eqb (snd pl) label) (combine xs labels)).

(** [np.where(labels == label)[0]] for every [label] of [np.unique(labels)]. *)
Definition merge_groups (labels : list Z) : list (list nat) :=
  map (fun label => np_where (fun x => Z.eqb x label) labels) (np_unique_Z labels).

(** [np.vstack([clusters[i] for i in cluster_indices])] *)
Definition vstack_group (clusters : list (list point)) (g : list nat) : list point :=
  concat (map (fun i => nth i clusters []) g).

Definition merge_adjacent_clusters (clusters : list (list point)) (eps : Q)
  : option (list (list point)) :=
  if (length clusters <=? 1)%nat then Some clusters
  else
    let centers := map mean_point clusters in
    match Dbscan.fit_predict (eps * 2) 1 centers with
    | None => None
    | Some labels => Some (map (vstack_group clusters) (merge_groups labels))
    end.

(** One cluster label of one cell (loop body at lines 252-268):
    [None] for the noise label and for clusters below [min_points]. *)
Definition cluster_of_label (eps : Q) (min_points : nat) (oversized : bool)
    (cell_points cell_points_sample : list point) (labels : list Z) (label : Z)
  : option (list point) :=
  if (label =? Dbscan.NOISE)%Z then None
  else
    let cluster_points :=
      if oversized then
        let cluster_center := mean_point (mask_select cell_points_sample labels label) in
        filter (fun p => Qltb (dist2 p cluster_center) ((eps * 2) * (eps * 2))) cell_points
      else mask_select cell_points_sample labels label in
    if (min_points <=? length cluster_points)%nat then Some cluster_points else None.

Fixpoint keep_some {A} (l : list (option A)) : list A :=
  match l with
  | [] => []
  | Some a :: r => a :: keep_some r
  | None :: r => keep_some r
  end.

(** Lines 227-268 for one cell.  [original_indices] is computed by the
    source but never read afterwards, so it is not modelled. *)
Definition process_cell (eps : Q) (min_points max_points_per_cluster : nat)
    (voxel_size : Q) (cell_points : list point) : option (list (list point)) :=
  let oversized := (max_points_per_cluster <? length cell_points)%nat in
  let sample :=
    if oversized then
      match Downsample.downsample_points cell_points max_points_per_cluster voxel_size with
      | Some (s, _) => Some s
      | None => None
      end
    else Some cell_points in
  match sample with
  | None => None
  | Some cell_points_sample =>
    match Dbscan.fit_predict eps min_points cell_points_sample with
    | None => None
    | Some labels =>
      Some (keep_some (map (cluster_of_label eps min_points oversized cell_points
                              cell_points_sample labels) (np_unique_Z labels)))
    end
  end.

Record config := {
  grid_size : Q;
  max_points_per_cluster : nat
}.

Fixpoint process_cells (eps : Q) (min_points : nat) (cfg : config)
    (voxel_size_fn : list point -> nat -> Q) (points : list point)
    (cells : list ((Z * Z) * list nat)) : option (list (list point)) :=
  match cells with
  | [] => Some []
  | (_, indices) :: rest =>
    let cell_points := map (fun i => nth i points Dbscan.origin) indices in
    match process_cell eps min_points (max_points_per_cluster cfg)
            (voxel_size_fn cell_points (max_points_per_cluster cfg)) cell_points with
    | None => None
    | Some cl =>
      match process_cells eps min_points cfg voxel_size_fn points rest with
      | None => None
      | Some more => Some (cl ++ more)
      end
    end
  end.

(** [voxel_size_fn] stands for [diagonal / np.cbrt(target_size)] (see
    [Downsample.voxel_size_of]).  An exception of DBSCAN or of the
    downsampler propagates out of the method: [None]. *)
Definition all_clusters_of (eps : Q) (min_points : nat) (cfg : config)
    (voxel_size_fn : list point -> nat -> Q) (points : list point)
  : option (list (list point)) :=
  process_cells eps min_points cfg voxel_size_fn points
    (Grid.create_spatial_grid (grid_size cfg) points).

Definition segment_buildings_optimized (eps : Q) (min_points : nat) (cfg : config)
    (voxel_size_fn : list point -> nat -> Q) (points : list point)
  : option (list (list point)) :=
  match all_clusters_of eps min_points cfg voxel_size_fn points with
  | None => None
  | Some all_clusters =>
    if (0 <? length all_clusters)%nat then merge_adjacent_clusters all_clusters eps
    else Some []
  end.

Lemma mask_select_In xs labels label p :
  In p (mask_select xs labels label) -> In (p, label) (combine xs labels).
Proof.
  unfold mask_select. intro H. apply in_map_iff in H as [[q l] [Hq Hin]]. simpl in Hq. subst q.
  apply filter_In in Hin as [Hin Hl]. simpl in Hl. apply Z.eqb_eq in Hl. subst l. exact Hin.
Qed.

Lemma keep_some_In {A} (l : list (option A)) a : In a (keep_some l) <-> In (Some a) l.
Proof.
  induction l as [|[b|] r IH]; simpl; [tauto| |].
  - rewrite IH. split; intros [H|H]; auto; [left; congruence|inversion H; auto].
  - rewrite IH. split; [auto|]. intros [H|H]; [discriminate|exact H].
Qed.

Lemma cluster_of_label_spec eps min_points oversized cell sample labels label c :
  cluster_of_label eps min_points oversized cell sample labels label = Some c ->
  label <> Dbscan.NOISE /\ (min_points <= length c)%nat /\
  c = (if oversized then
         filter (fun p => Qltb (dist2 p (mean_point (mask_select sample labels label)))
                               ((eps * 2) * (eps * 2))) cell
       else mask_select sample labels label).
Proof.
  unfold cluster_of_label. destruct (Z.eqb_spec label Dbscan.NOISE); [discriminate|].
  match goal with |- context [Nat.leb min_points ?k] => destruct (Nat.leb_spec min_points k) end;
    [|discriminate]. intro Hc. inversion Hc. auto.
Qed.

Lemma process_cell_spec eps min_points cap v cell cl :
  process_cell eps min_points cap v cell = Some cl ->
  let oversized := (cap <? length cell)%nat in
  exists sample labels,
    (if oversized then exists idx, Downsample.downsample_points cell cap v = Some (sample, idx)
     else sample = cell) /\
    Dbscan.fit_predict eps min_points sample = Some labels /\
    forall c, In c cl -> exists label, In label labels /\
      cluster_of_label eps min_points oversized cell sample labels label = Some c.
Proof.
  intros H oversized. unfold process_cell in H. fold oversized in H.
  destruct oversized eqn:Eo.
  - destruct (Downsample.downsample_points cell cap v) as [[s idx]|] eqn:Ed; [|discriminate].
    destruct (Dbscan.fit_predict eps min_points s) as [labels|] eqn:Ef; [|discriminate].
    injection H as <-. exists s, labels. split; [exists idx; reflexivity|]. split; [exact Ef|].
    intros c Hc. apply keep_some_In, in_map_iff in Hc as [label [Hl Hin]].
    exists label. split; [apply np_unique_Z_In; exact Hin|exact Hl].
  - destruct (Dbscan.fit_predict eps min_points cell) as [labels|] eqn:Ef; [|discriminate].
    injection H as <-. exists cell, labels. split; [reflexivity|]. split; [exact Ef|].
    intros c Hc. apply keep_some_In, in_map_iff in Hc as [label [Hl Hin]].
    exists label. split; [apply np_unique_Z_In; exact Hin|exact Hl].
Qed.

Lemma process_cell_min eps min_points cap v cell cl :
  process_cell eps min_points cap v cell = Some cl ->
  forall c, In c cl -> (min_points <= length c)%nat.
Proof.
  intros H c Hc. destruct (process_cell_spec _ _ _ _ _ _ H) as [s [labels [_ [_ Hs]]]].
  destruct (Hs c Hc) as [label [_ Hl]]. apply cluster_of_label_spec in Hl. tauto.
Qed.

Lemma process_cells_min eps min_points cfg vs pts cells cs :
  process_cells eps min_points cfg vs pts cells = Some cs ->
  forall c, In c cs -> (min_points <= length c)%nat.
Proof.
  revert cs. induction cells as [|[key idx] rest IH]; intros cs H c Hc; simpl in H.
  - injection H as <-. contradiction.
  - destruct (process_cell _ _ _ _ _) as [cl|] eqn:E1; [|discriminate].
    destruct (process_cells _ _ _ _ _ rest) as [more|] eqn:E2; [|discriminate].
    injection H as <-. apply in_app_or in Hc as [Hc|Hc].
    + eapply process_cell_min; eauto.
    + eapply IH; eauto.
Qed.

Lemma length_concat_ge {A} (x : list A) (L : list (list A)) :
  In x L -> (length x <= length (concat L))%nat.
Proof.
  induction L as [|y r IH]; simpl; [contradiction|]. rewrite length_app.
  intros [->|H]; [lia|]. specialize (IH H). lia.
Qed.

Lemma merge_groups_spec labels g :
  In g (merge_groups labels) ->
  exists label, In label labels /\ g = np_where (fun x => Z.eqb x label) labels.
Proof.
  unfold merge_groups. intro H. apply in_map_iff in H as [label [<- Hl]].
  exists label. split; [apply np_unique_Z_In; exact Hl|reflexivity].
Qed.

Lemma merge_min clusters eps bs min_points :
  (forall c, In c clusters -> (min_points <= length c)%nat) ->
  merge_adjacent_clusters clusters eps = Some bs ->
  forall b, In b bs -> (min_points <= length b)%nat.
Proof.
  intros Hc H b Hb. unfold merge_adjacent_clusters in H.
  destruct (length clusters <=? 1)%nat.
  - injection H as <-. auto.
  - destruct (Dbscan.fit_predict (eps * 2) 1 (map mean_point clusters)) as [labels|] eqn:Ef;
      [|discriminate].
    injection H as <-. apply in_map_iff in Hb as [g [<- Hg]].
    apply merge_groups_spec in Hg as [label [Hl ->]].
    destruct (Dbscan.fit_predict_ms1 _ _ _ Ef) as [Hlen _].
    rewrite length_map in Hlen.
    apply In_nth_error in Hl as [i Hi].
    assert (Hin : (i < length clusters)%nat) by (rewrite <- Hlen; apply nth_error_Some; congruence).
    apply Nat.le_trans with (length (nth i clusters [])); [apply Hc, nth_In, Hin|].
    unfold vstack_group. apply length_concat_ge.
    apply (in_map (fun i0 => nth i0 clusters [])).
    apply Grid.in_np_where. exists label. split; [exact Hi|apply Z.eqb_refl].
Qed.

Lemma nth_mean_point clusters i :
  (i < length clusters)%nat ->
  nth i (map mean_point clusters) Dbscan.origin = mean_point (nth i clusters []).
Proof.
  intro Hi. rewrite (nth_indep _ _ (mean_point [])) by (rewrite length_map; exact Hi).
  apply map_nth.
Qed.

Lemma merge_groups_length labels : (length (merge_groups labels) <= length labels)%nat.
Proof.
  unfold merge_groups. rewrite length_map. apply NoDup_incl_length; [apply np_unique_Z_NoDup|].
  intros x Hx. apply np_unique_Z_In. exact Hx.
Qed.

Lemma merge_length clusters eps bs :
  merge_adjacent_clusters clusters eps = Some bs -> (length bs <= length clusters)%nat.
Proof.
  unfold merge_adjacent_clusters. destruct (Nat.leb_spec (length clusters) 1) as [Hle|Hgt].
  - intro H. injection H as <-. lia.
  - destruct (Dbscan.fit_predict (eps * 2) 1 (map mean_point clusters)) as [labels|] eqn:Ef;
      [|discriminate].
    intro H. injection H as <-. destruct (Dbscan.fit_predict_ms1 _ _ _ Ef) as [Hlen _].
    rewrite length_map in Hlen |- *. rewrite <- Hlen. apply merge_groups_length.
Qed.
End Segmentation.


(* ------------------------------------------------------------------ *)
(** ** [compute_building_metadata] *)
Module Metadata.

(** [m] is the least element of [l]: one of its elements and below all. *)
Definition is_min_of (m : Q) (l : list Q) : Prop := In m l /\ forall x, In x l -> m <= x.
Definition is_max_of (m : Q) (l : list Q) : Prop := In m l /\ forall x, In x l -> x <= m.

(** [np.percentile(zs, 20)] with numpy's default [linear] method: on the
    sorted values [a], the rank is [0.2 (n - 1)] and the result
    interpolates between [a[floor rank]] and the next value. *)
Definition percentile20 (zs : list Q) : Q :=
  let a := isort Qle_bool zs in
  let n := length a in
  let rank := (1 # 5) * inject_Z (Z.of_nat n - 1) in
  let lo := Z.to_nat (Qfloor rank) in
  let t := rank - inject_Z (Z.of_nat lo) in
  let lo_v := nth lo a 0 in
  let hi_v := nth (Nat.min (lo + 1) (n - 1)) a 0 in
  lo_v + (hi_v - lo_v) * t.

Record building_metadata := {
  id : String.string;
  num_points : nat;
  num_planes : nat;
  bbox_min : point;
  bbox_max : point;
  center : point;
  area_m2 : Q;
  height_m : Q;
  num_courtyards : nat
}.

(** [points[points[:, 2] < np.percentile(points[:, 2], 20)]] *)
Definition footprint_points (points : list point) : list point :=
  let p20 := percentile20 (map pz points) in
  filter (fun p => Qltb (pz p) p20) points.

(** Lines 481-511.  [points.min(axis=0)] raises on an empty array:
    [None].  [planes] only contributes its length. *)
Definition compute_building_metadata (building_id : String.string) (points : list point)
    (planes : list nat) (num_courtyards : nat) : option building_metadata :=
  match np_min (map px points), np_min (map py points), np_min (map pz points),
        np_max (map px points), np_max (map py points), np_max (map pz points) with
  | Some x0, Some y0, Some z0, Some x1, Some y1, Some z1 =>
    let bbox_min := mkp x0 y0 z0 in
    let bbox_max := mkp x1 y1 z1 in
    let center := mean_point points in
    let footprint := footprint_points points in
    let area :=
      if (0 <? length footprint)%nat then
        match np_max (map px footprint), np_min (map px footprint),
              np_max (map py footprint), np_min (map py footprint) with
        | Some fx1, Some fx0, Some fy1, Some fy0 => Some ((fx1 - fx0) * (fy1 - fy0))
        | _, _, _, _ => None
        end
      else Some 0 in
    match area with
    | None => None
    | Some area_m2 =>
      Some {| id := building_id; num_points := length points;
              num_planes := length planes; bbox_min := bbox_min; bbox_max := bbox_max;
              center := center; area_m2 := area_m2;
              height_m := pz bbox_max - pz bbox_min;
              num_courtyards := num_courtyards |}
    end
  | _, _, _, _, _, _ => None
  end.

Lemma fold_select_In (f : Q -> Q -> Q) (Hf : forall a b, f a b = a \/ f a b = b) r x :
  In (fold_left f r x) (x :: r).
Proof.
  revert x. induction r as [|y r IH]; intro x; simpl; [left; reflexivity|].
  destruct (IH (f x y)) as [E|E]; [|right; right; exact E].
  rewrite <- E. destruct (Hf x y) as [E'|E']; rewrite E'; auto.
Qed.

Lemma fold_qmin_spec r x :
  is_min_of (fold_left qmin r x) (x :: r).
Proof.
  revert x. induction r as [|y r IH]; intro x; simpl.
  - split; [left; reflexivity|]. intros z [<-|[]]. apply Qle_refl.
  - destruct (IH (qmin x y)) as [Hin Hle]. split.
    + change (In (fold_left qmin (y :: r) x) (x :: y :: r)).
      apply fold_select_In. intros a b. unfold qmin. destruct (Qle_bool a b); auto.
    + assert (Hq : qmin x y <= x /\ qmin x y <= y).
      { unfold qmin. destruct (Qle_bool x y) eqn:E.
        - apply Qle_bool_iff in E. split; [apply Qle_refl|exact E].
        - split; [|apply Qle_refl]. apply Qlt_le_weak, Qnot_le_lt.
          intro C. apply Qle_bool_iff in C. congruence. }
      intros z [<-|[<-|Hz]].
      * eapply Qle_trans; [apply Hle; left; reflexivity|apply Hq].
      * eapply Qle_trans; [apply Hle; left; reflexivity|apply Hq].
      * apply Hle. right. exact Hz.
Qed.

Lemma fold_qmax_spec r x :
  is_max_of (fold_left qmax r x) (x :: r).
Proof.
  revert x. induction r as [|y r IH]; intro x; simpl.
  - split; [left; reflexivity|]. intros z [<-|[]]. apply Qle_refl.
  - destruct (IH (qmax x y)) as [Hin Hle]. split.
    + change (In (fold_left qmax (y :: r) x) (x :: y :: r)).
      apply fold_select_In. intros a b. unfold qmax. destruct (Qle_bool a b); auto.
    + assert (Hq : x <= qmax x y /\ y <= qmax x y).
      { unfold qmax. destruct (Qle_bool x y) eqn:E.
        - apply Qle_bool_iff in E. split; [exact E|apply Qle_refl].
        - split; [apply Qle_refl|]. apply Qlt_le_weak, Qnot_le_lt.
          intro C. apply Qle_bool_iff in C. congruence. }
      intros z [<-|[<-|Hz]].
      * eapply Qle_trans; [apply Hq|apply Hle; left; reflexivity].
      * eapply Qle_trans; [apply Hq|apply Hle; left; reflexivity].
      * apply Hle. right. exact Hz.
Qed.

Lemma np_min_spec l : l <> [] -> exists m, np_min l = Some m /\ is_min_of m l.
Proof.
  destruct l as [|x r]; [congruence|]. intros _. eexists. split; [reflexivity|].
  apply fold_qmin_spec.
Qed.

Lemma np_max_spec l : l <> [] -> exists m, np_max l = Some m /\ is_max_of m l.
Proof.
  destruct l as [|x r]; [congruence|]. intros _. eexists. split; [reflexivity|].
  apply fold_qmax_spec.
Qed.

Lemma map_ne {A B} (f : A -> B) l : l <> [] -> map f l <> [].
Proof. destruct l; simpl; congruence. Qed.

End Metadata.


(* ------------------------------------------------------------------ *)
(** ** [extract_planes_ransac]: Open3D's [segment_plane]

    [segment_plane(t, 3, iters)] draws, at every iteration, three distinct
    random points of the current cloud; it skips degenerate (collinear)
    triples, and otherwise counts the inliers of the plane through them
    (points at distance [< t]).  A candidate replaces the best one when it
    has more inliers, or as many with a smaller inlier RMSE; the returned
    inliers are those of the best candidate.  The random draws are an
    argument here: [draws r] lists the index triples of extraction round
    [r] (at most [num_iterations] of them; recent Open3D versions may stop
    early, which only shortens the list).  The least-squares refit of the
    returned plane coefficients is not modelled: only the inlier counts are
    read by the program. *)
Module Ransac.

(** Plane [a x + b y + c z + d = 0] as [(a, b, c, d)]. *)
Definition plane := (Q * Q * Q * Q)%type.

Definition cross (u v : point) : point :=
  mkp (py u * pz v - pz u * py v) (pz u * px v - px u * pz v) (px u * py v - py u * px v).

Definition dot (u v : point) : Q := px u * px v + py u * py v + pz u * pz v.

(** [ComputeTrianglePlane]: the zero plane for a degenerate triple. *)
Definition triangle_plane (p0 p1 p2 : point) : plane :=
  let n := cross (psub p1 p0) (psub p2 p0) in
  if Qeq_bool (dot n n) 0 then (0, 0, 0, 0)
  else (px n, py n, pz n, - dot n p0).

Definition plane_is_zero (pl : plane) : bool :=
  match pl with (a, b, c, _) => Qeq_bool (a * a + b * b + c * c) 0 end.

(** Squared distance from [p] to the (non-zero) plane [pl]. *)
Definition plane_dist2 (pl : plane) (p : point) : Q :=
  match pl with
  | (a, b, c, d) =>
    let s := a * px p + b * py p + c * pz p + d in s * s / (a * a + b * b + c * c)
  end.

Definition is_inlier (t : Q) (pl : plane) (p : point) : bool :=
  negb (plane_is_zero pl) && Qltb (plane_dist2 pl p) (t * t).

(** Best candidate so far: plane, inlier count, mean squared error. *)
Definition ransac_step (t : Q) (pool : list point) (best : plane * nat * Q)
    (draw : nat * nat * nat) : plane * nat * Q :=
  let n := length pool in
  match draw, best with
  | (i, j, k), (_, best_count, best_mse) =>
    let pl := triangle_plane (nth (i mod n) pool Dbscan.origin)
                (nth (j mod n) pool Dbscan.origin) (nth (k mod n) pool Dbscan.origin) in
    if plane_is_zero pl then best
    else
      let ins := filter (is_inlier t pl) pool in
      let count := length ins in
      let mse := if (count =? 0)%nat then 0
                 else sumQ (map (plane_dist2 pl) ins) / inject_Z (Z.of_nat count) in
      if (best_count <? count)%nat || ((count =? best_count)%nat && Qltb mse best_mse)
      then (pl, count, mse) else best
  end.

(** [segment_plane]: the best plane and the indices of its inliers. *)
Definition segment_plane (t : Q) (pool : list point) (draws : list (nat * nat * nat))
  : plane * list nat :=
  match fold_left (ransac_step t pool) draws ((0, 0, 0, 0), 0%nat, 0) with
  | (pl, _, _) => (pl, np_where (is_inlier t pl) pool)
  end.

(** [select_by_index(inliers, invert=True)] *)
Definition select_by_index_invert (pool : list point) (idx : list nat) : list point :=
  map snd (filter (fun ip => negb (existsb (Nat.eqb (fst ip)) idx)) (enumerate pool)).

(** The loop of lines 413-436; a plane is recorded with [num_points]. *)
Fixpoint extract_loop (t : Q) (draws : nat -> list (nat * nat * nat)) (fuel round : nat)
    (remaining_points : list point) : list (plane * nat) :=
  match fuel with
  | O => []
  | S fuel' =>
    if (length remaining_points <? 100)%nat then []
    else
      match segment_plane t remaining_points (draws round) with
      | (plane_model, inliers) =>
        if (length inliers <? 100)%nat then []
        else (plane_model, length inliers)
             :: extract_loop t draws fuel' (S round)
                  (select_by_index_invert remaining_points inliers)
      end
  end.

Definition max_iterations : nat := 5.

Definition extract_planes_ransac (distance_threshold : Q)
    (draws : nat -> list (nat * nat * nat)) (points : list point) : list (plane * nat) :=
  extract_loop distance_threshold draws max_iterations 0 points.

Definition num_points_sum (planes : list (plane * nat)) : nat :=
  fold_right (fun pl acc => (snd pl + acc)%nat) 0%nat planes.

Lemma map_fst_enumerate_from {A} (l : list A) k :
  map fst (combine (seq k (length l)) l) = seq k (length l).
Proof.
  revert k. induction l as [|a r IH]; intro k; simpl; [reflexivity|]. f_equal. apply IH.
Qed.

Lemma NoDup_fst_eq {A B} (l : list (A * B)) a b :
  NoDup (map fst l) -> In a l -> In b l -> fst a = fst b -> a = b.
Proof.
  induction l as [|x r IH]; simpl; [contradiction|]. intros Hn Ha Hb He.
  inversion Hn as [|? ? Hx Hr]; subst.
  destruct Ha as [<-|Ha], Hb as [<-|Hb]; auto.
  - exfalso. apply Hx. rewrite He. apply in_map. exact Hb.
  - exfalso. apply Hx. rewrite <- He. apply in_map. exact Ha.
Qed.

Lemma filter_partition_length {A} (g : A -> bool) (l : list A) :
  (length (filter g l) + length (filter (fun x => negb (g x)) l) = length l)%nat.
Proof. induction l as [|x r IH]; simpl; [reflexivity|]. destruct (g x); simpl; lia. Qed.

Lemma select_invert_length t pl pool :
  (length (np_where (is_inlier t pl) pool)
   + length (select_by_index_invert pool (np_where (is_inlier t pl) pool)) = length pool)%nat.
Proof.
  unfold select_by_index_invert, np_where. rewrite !length_map.
  set (g := fun ip : nat * point => is_inlier t pl (snd ip)).
  assert (Hnd : NoDup (map fst (enumerate pool))).
  { unfold enumerate. rewrite map_fst_enumerate_from. apply seq_NoDup. }
  rewrite (filter_ext_in
             (fun ip => negb (existsb (Nat.eqb (fst ip)) (map fst (filter g (enumerate pool)))))
             (fun ip => negb (g ip))).
  - transitivity (length (enumerate pool)); [apply (filter_partition_length g)|].
    unfold enumerate. rewrite length_combine, length_seq. lia.
  - intros ip Hip. f_equal. destruct (g ip) eqn:Eg.
    + apply existsb_exists. exists (fst ip). split; [|apply Nat.eqb_refl].
      apply in_map. apply filter_In. split; [exact Hip|exact Eg].
    + apply not_true_iff_false. intro C. apply existsb_exists in C as [k [Hk Ek]].
      apply Nat.eqb_eq in Ek. apply in_map_iff in Hk as [ip' [Hf Hip']].
      apply filter_In in Hip' as [Hip' Eg']. subst k.
      rewrite (NoDup_fst_eq _ ip' ip Hnd Hip' Hip (eq_sym Ek)) in Eg'. congruence.
Qed.

Lemma extract_loop_spec t draws fuel round pool :
  let planes := extract_loop t draws fuel round pool in
  (length planes <= fuel)%nat /\ (forall pl, In pl planes -> (100 <= snd pl)%nat) /\
  (num_points_sum planes <= length pool)%nat.
Proof.
  revert round pool. induction fuel as [|fuel IH]; intros round pool; simpl.
  - split; [lia|]. split; [contradiction|]. simpl. lia.
  - destruct (Nat.ltb_spec (length pool) 100); [simpl; split; [lia|split; [contradiction|lia]]|].
    unfold segment_plane.
    destruct (fold_left (ransac_step t pool) (draws round) ((0, 0, 0, 0), 0%nat, 0))
      as [[pl c] m].
    destruct (Nat.ltb_spec (length (np_where (is_inlier t pl) pool)) 100);
      [simpl; split; [lia|split; [contradiction|lia]]|].
    destruct (IH (S round) (select_by_index_invert pool (np_where (is_inlier t pl) pool)))
      as [H1 [H2 H3]].
    pose proof (select_invert_length t pl pool).
    simpl. split; [lia|]. split.
    + intros p [<-|Hp]; [simpl; lia|auto].
    + lia.
Qed.

End Ransac.


(* ------------------------------------------------------------------ *)
(** ** [create_building_mesh_with_courtyards]

    Open3D's surface reconstructions are not modelled: a mesh records
    which reconstruction produced it and from which points, and whether a
    reconstruction raises is left to a [backend] ([poisson_fails] covers the
    whole [try] block: normal estimation and orientation, Poisson
    reconstruction and the clean-up calls; [alpha_shape_fails] covers the
    alpha shape and its normals). *)
Module Mesh.

Inductive mesh :=
| PoissonMesh (points : list point)
| AlphaShapeMesh (points : list point) (alpha : Q)
| EmptyMesh.




End Mesh.

(* ------------------------------------------------------------------ *)
(** ** [process_all]

    Only warnings and errors are logged in the model.  The per-building
    work inside the [try] block (courtyards, planes, mesh, metadata, GLB
    export) is a parameter [process_building] returning [None] when it
    raises; segmentation is a parameter [segment] returning [None] when it
    raises, which is not caught and ends the run.  The final merged model
    and the metadata file are not modelled. *)
Module Pipeline.

Inductive level := INFO | WARNING | ERROR.

Inductive message :=
| NoLazFiles
| NoBuildingPoints
| BuildingFailed (building_counter : nat).

Record las_file := {
  xyz : list point;
  classification : list Z
}.

(** [points[classifications == 6]] (LAS class 6: building). *)
Definition extract_buildings (points : list point) (classifications : list Z) : list point :=
  map fst (filter (fun pc => Z.eqb (snd pc) 6) (combine points classifications)).

Record state := {
  metadata : list Metadata.building_metadata;
  all_buildings : list Mesh.mesh;
  building_counter : nat;
  log : list (level * message)
}.

Definition empty_state : state :=
  {| metadata := []; all_buildings := []; building_counter := 0; log := [] |}.

Definition log_msg (lv : level) (msg : message) (st : state) : state :=
  {| metadata := metadata st; all_buildings := all_buildings st;
     building_counter := building_counter st; log := log st ++ [(lv, msg)] |}.

Section Run.
Variable segment : list point -> option (list (list point)).
Variable process_building :
  nat -> list point -> option (Metadata.building_metadata * Mesh.mesh).

(** Body of the loop over buildings (lines 564-597). *)
Definition building_step (st : state) (bldg_points : list point) : state :=
  let c := S (building_counter st) in
  match process_building c bldg_points with
  | Some (md, mesh) =>
    {| metadata := metadata st ++ [md]; all_buildings := all_buildings st ++ [mesh];
       building_counter := c; log := log st |}
  | None =>
    log_msg ERROR (BuildingFailed c)
      {| metadata := metadata st; all_buildings := all_buildings st;
         building_counter := c; log := log st |}
  end.

(** Body of the loop over files (lines 543-597). *)
Definition process_file (st : state) (f : las_file) : option state :=
  let building_points := extract_buildings (xyz f) (classification f) in
  if (length building_points =? 0)%nat then Some (log_msg WARNING NoBuildingPoints st)
  else
    match segment building_points with
    | None => None
    | Some buildings => Some (fold_left building_step buildings st)
    end.

Fixpoint process_files (st : state) (files : list las_file) : option state :=
  match files with
  | [] => Some st
  | f :: rest =>
    match process_file st f with
    | None => None
    | Some st' => process_files st' rest
    end
  end.

Definition process_all (laz_files : list las_file) : option state :=
  match laz_files with
  | [] => Some (log_msg WARNING NoLazFiles empty_state)
  | _ => process_files empty_state laz_files
  end.
End Run.

Lemma extract_buildings_none points classes :
  ~ In 6%Z classes -> extract_buildings points classes = [].
Proof.
  intro H. unfold extract_buildings.
  destruct (filter _ (combine points classes)) as [|[p c] r] eqn:E; [reflexivity|].
  exfalso. assert (Hin : In (p, c) ((p, c) :: r)) by (left; reflexivity).
  rewrite <- E in Hin. apply filter_In in Hin as [Hin Hc]. simpl in Hc.
  apply Z.eqb_eq in Hc. subst c. apply in_combine_r in Hin. contradiction.
Qed.

(** Number of [BuildingFailed] entries of a log. *)
Definition count_failures (lg : list (level * message)) : nat :=
  length (filter (fun e => match snd e with BuildingFailed _ => true | _ => false end) lg).

Definition counts_ok (st : state) : Prop :=
  length (metadata st) = length (all_buildings st) /\
  (length (metadata st) + count_failures (log st))%nat = building_counter st.

Lemma count_failures_app l1 l2 :
  count_failures (l1 ++ l2) = (count_failures l1 + count_failures l2)%nat.
Proof. unfold count_failures. rewrite filter_app, length_app. reflexivity. Qed.

Lemma building_step_counts pb st b : counts_ok st -> counts_ok (building_step pb st b).
Proof.
  unfold counts_ok, building_step. intros [H1 H2].
  destruct (pb (S (building_counter st)) b) as [[md mesh]|]; simpl.
  - rewrite !length_app. simpl. lia.
  - rewrite count_failures_app. simpl. unfold count_failures at 2. simpl. lia.
Qed.

Lemma process_files_counts segment pb st files st' :
  counts_ok st -> process_files segment pb st files = Some st' -> counts_ok st'.
Proof.
  revert st. induction files as [|f rest IH]; intros st Hst H; simpl in H.
  - injection H as <-. exact Hst.
  - destruct (process_file segment pb st f) as [st1|] eqn:E; [|discriminate].
    apply (IH st1); [|exact H]. unfold process_file in E.
    destruct (length (extract_buildings (xyz f) (classification f)) =? 0)%nat.
    + injection E as <-. unfold counts_ok, log_msg in *. simpl.
      rewrite count_failures_app. unfold count_failures at 2. simpl. lia.
    + destruct (segment _) as [bs|]; [|discriminate]. injection E as <-.
      clear H. revert st Hst. induction bs as [|b bs IHb]; intros st Hst; simpl; [exact Hst|].
      apply IHb, building_step_counts, Hst.
Qed.

Lemma process_all_counts segment pb laz_files st :
  process_all segment pb laz_files = Some st -> counts_ok st.
Proof.
  intro H. unfold process_all in H. destruct laz_files as [|f rest].
  - injection H as <-. split; reflexivity.
  - eapply process_files_counts; [|exact H]. split; reflexivity.
Qed.

Lemma process_files_app segment pb st pre post :
  process_files segment pb st (pre ++ post) =
  match process_files segment pb st pre with
  | None => None
  | Some st1 => process_files segment pb st1 post
  end.
Proof.
  revert st. induction pre as [|f rest IH]; intro st; simpl; [reflexivity|].
  destruct (process_file segment pb st f); [apply IH|reflexivity].
Qed.

Lemma process_all_segment_error segment pb pre f rest :
  extract_buildings (xyz f) (classification f) <> [] ->
  segment (extract_buildings (xyz f) (classification f)) = None ->
  process_all segment pb (pre ++ f :: rest) = None.
Proof.
  intros Hne Hseg. unfold process_all.
  replace (match pre ++ f :: rest with [] => _ | _ => _ end)
    with (process_files segment pb empty_state (pre ++ f :: rest))
    by (destruct pre; reflexivity).
  rewrite process_files_app.
  destruct (process_files segment pb empty_state pre) as [st1|]; [|reflexivity].
  simpl. unfold process_file.
  destruct (Nat.eqb_spec (length (extract_buildings (xyz f) (classification f))) 0) as [E|_].
  - apply length_zero_iff_nil in E. contradiction.
  - rewrite Hseg. reflexivity.
Qed.

End Pipeline.


(* ------------------------------------------------------------------ *)
(** ** Facts about the segmentation *)
Module SegmentationFacts.
Import Segmentation.

Lemma concat_groups_In labels x :
  In x (concat (merge_groups labels)) <-> (x < length labels)%nat.
Proof.
  unfold merge_groups. rewrite in_concat. split.
  - intros [g [Hg Hx]]. apply in_map_iff in Hg as [label [<- _]].
    apply Grid.in_np_where in Hx as [a [Ha _]]. apply nth_error_Some. congruence.
  - intro Hx. destruct (nth_error labels x) as [a|] eqn:Ea;
      [|apply nth_error_None in Ea; lia].
    exists (np_where (fun y => Z.eqb y a) labels). split.
    + apply (in_map (fun label => np_where (fun y => Z.eqb y label) labels)).
      apply np_unique_Z_In. eapply nth_error_In. exact Ea.
    + apply Grid.in_np_where. exists a. split; [exact Ea|apply Z.eqb_refl].
Qed.

Lemma concat_groups_NoDup labels : NoDup (concat (merge_groups labels)).
Proof.
  unfold merge_groups. generalize (np_unique_Z_NoDup labels).
  generalize (np_unique_Z labels) as ls. induction ls as [|a r IH]; intro Hnd; simpl; [constructor|].
  inversion Hnd as [|? ? Ha Hr]; subst.
  apply NoDup_app; [apply Dbscan.np_where_NoDup|apply IH, Hr|].
  intros x Hx Hx'. apply Grid.in_np_where in Hx as [b [Hb Eb]]. apply Z.eqb_eq in Eb. subst b.
  apply in_concat in Hx' as [g [Hg Hxg]]. apply in_map_iff in Hg as [c [<- Hc]].
  apply Grid.in_np_where in Hxg as [b [Hb' Eb]]. apply Z.eqb_eq in Eb. subst b.
  rewrite Hb in Hb'. injection Hb' as ->. contradiction.
Qed.

Lemma concat_groups_perm labels :
  Permutation (concat (merge_groups labels)) (seq 0 (length labels)).
Proof.
  apply NoDup_Permutation; [apply concat_groups_NoDup|apply seq_NoDup|].
  intro x. rewrite concat_groups_In, in_seq. lia.
Qed.

Lemma flat_map_nth_seq {A} (l : list (list A)) :
  flat_map (fun i => nth i l []) (seq 0 (length l)) = concat l.
Proof.
  induction l as [|c r IH]; [reflexivity|]. simpl. f_equal.
  rewrite <- seq_shift, <- IH. clear IH.
  induction (seq 0 (length r)) as [|i s IHs]; simpl; [reflexivity|]. rewrite IHs. reflexivity.
Qed.

Lemma merge_preserves_points clusters eps buildings :
  merge_adjacent_clusters clusters eps = Some buildings ->
  Permutation (concat buildings) (concat clusters).
Proof.
  unfold merge_adjacent_clusters. destruct (length clusters <=? 1)%nat.
  - intro H. injection H as <-. reflexivity.
  - destruct (Dbscan.fit_predict (eps * 2) 1 (map mean_point clusters)) as [labels|] eqn:Ef;
      [|discriminate].
    intro H. injection H as <-.
    destruct (Dbscan.fit_predict_ms1 _ _ _ Ef) as [Hlen _]. rewrite length_map in Hlen.
    unfold vstack_group.
    replace (concat (map (fun g => concat (map (fun i => nth i clusters []) g))
                         (merge_groups labels)))
      with (flat_map (fun i => nth i clusters []) (concat (merge_groups labels))).
    + rewrite <- (flat_map_nth_seq clusters), <- Hlen. apply Permutation_flat_map, concat_groups_perm.
    + induction (merge_groups labels) as [|g gs IH]; simpl; [reflexivity|].
      rewrite flat_map_app, IH, flat_map_concat_map. reflexivity.
Qed.

Lemma process_cell_subset eps min_points cap v cell cl :
  process_cell eps min_points cap v cell = Some cl ->
  forall c p, In c cl -> In p c -> In p cell.
Proof.
  intros H c p Hc Hp. destruct (process_cell_spec _ _ _ _ _ _ H) as [s [labels [Hs [_ Hcl]]]].
  destruct (Hcl c Hc) as [label [_ Hl]]. apply cluster_of_label_spec in Hl as [_ [_ ->]].
  destruct (cap <? length cell)%nat.
  - apply filter_In in Hp. tauto.
  - subst s. apply mask_select_In in Hp. eapply in_combine_l. exact Hp.
Qed.

Lemma process_cells_subset eps min_points cfg vs pts cells cs :
  (forall key idx i, In (key, idx) cells -> In i idx -> (i < length pts)%nat) ->
  process_cells eps min_points cfg vs pts cells = Some cs ->
  forall c p, In c cs -> In p c -> In p pts.
Proof.
  revert cs. induction cells as [|[key idx] rest IH]; intros cs Hv H c p Hc Hp; simpl in H.
  - injection H as <-. contradiction.
  - destruct (process_cell _ _ _ _ _) as [cl|] eqn:E1; [|discriminate].
    destruct (process_cells _ _ _ _ _ rest) as [more|] eqn:E2; [|discriminate].
    injection H as <-. apply in_app_or in Hc as [Hc|Hc].
    + pose proof (process_cell_subset _ _ _ _ _ _ E1 c p Hc Hp) as Hin.
      apply in_map_iff in Hin as [i [<- Hi]]. apply nth_In.
      eapply Hv; [left; reflexivity|exact Hi].
    + eapply IH; eauto. intros k ix i Hk Hi. eapply Hv; [right; exact Hk|exact Hi].
Qed.

Lemma grid_indices_valid g pts key idx i :
  In (key, idx) (Grid.create_spatial_grid g pts) -> In i idx -> (i < length pts)%nat.
Proof.
  intros H Hi. apply Grid.grid_entry_shape in H as [-> _].
  apply Grid.in_np_where in Hi as [a [Ha _]]. rewrite <- (length_map (Grid.grid_key g)).
  apply nth_error_Some. congruence.
Qed.

Lemma segmentation_points_from_input eps min_points cfg vs pts buildings :
  segment_buildings_optimized eps min_points cfg vs pts = Some buildings ->
  forall b p, In b buildings -> In p b -> In p pts.
Proof.
  unfold segment_buildings_optimized. intros H b p Hb Hp.
  destruct (all_clusters_of eps min_points cfg vs pts) as [all|] eqn:Ea; [|discriminate].
  assert (Hall : forall c p, In c all -> In p c -> In p pts).
  { unfold all_clusters_of in Ea. eapply process_cells_subset; [|exact Ea].
    intros key idx i Hk Hi. eapply grid_indices_valid; eauto. }
  destruct (0 <? length all)%nat.
  - assert (Hpc : In p (concat all)).
    { eapply Permutation_in; [apply (merge_preserves_points all eps); exact H|].
      apply in_concat. exists b. auto. }
    apply in_concat in Hpc as [c [Hc Hpc]]. eapply Hall; eauto.
  - injection H as <-. contradiction.
Qed.

Lemma fit_predict_invalid eps ms X :
  eps <= 0 \/ ms = 0%nat -> Dbscan.fit_predict eps ms X = None.
Proof.
  intro H. unfold Dbscan.fit_predict.
  destruct H as [H| ->]; [apply Qle_bool_iff in H; rewrite H; reflexivity|].
  destruct (Qle_bool eps 0); reflexivity.
Qed.

Lemma grid_nonempty g pts : pts <> [] -> Grid.create_spatial_grid g pts <> [].
Proof.
  intros Hne HG. destruct pts as [|p0 r]; [congruence|].
  assert (Hk : In (Grid.grid_key g p0) (map fst (Grid.create_spatial_grid g (p0 :: r)))).
  { rewrite Grid.grid_keys_fst. apply filter_In. split.
    - apply np_unique_Z2_In. left. reflexivity.
    - apply Nat.ltb_lt. destruct (np_where _ _) as [|j js] eqn:E; [|simpl; lia].
      exfalso. assert (H0 : In 0%nat (np_where (fun k => Z2_eqb k (Grid.grid_key g p0))
                                         (map (Grid.grid_key g) (p0 :: r)))).
      { apply Grid.in_np_where. exists (Grid.grid_key g p0). split; [reflexivity|].
        apply Grid.Z2_eqb_true. reflexivity. }
      rewrite E in H0. contradiction. }
  rewrite HG in Hk. contradiction.
Qed.

Lemma segmentation_empty_or_invalid eps min_points cfg vs pts :
  (pts = [] -> segment_buildings_optimized eps min_points cfg vs pts = Some []) /\
  (pts <> [] -> eps <= 0 \/ min_points = 0%nat ->
   segment_buildings_optimized eps min_points cfg vs pts = None).
Proof.
  split.
  - intros ->. reflexivity.
  - intros Hne Hbad. unfold segment_buildings_optimized, all_clusters_of.
    destruct (Grid.create_spatial_grid (grid_size cfg) pts) as [|[key idx] rest] eqn:EG;
      [exfalso; eapply grid_nonempty; eauto|].
    simpl. unfold process_cell.
    destruct (max_points_per_cluster cfg <? _)%nat;
      [destruct (Downsample.downsample_points _ _ _) as [[s ix]|]; [|reflexivity]|];
      rewrite fit_predict_invalid by exact Hbad; reflexivity.
Qed.

End SegmentationFacts.

(* ------------------------------------------------------------------ *)
(** ** Facts about the downsampling *)
Module DownsampleFacts.
Import Downsample.



Lemma argmin_from_spec q l best :
  let r := argmin_from q l best in
  snd r <= snd best /\ (forall i p, In (i, p) l -> snd r <= dist2 q p) /\
  (r = best \/ exists p, In (fst r, p) l /\ snd r = dist2 q p).
Proof.
  revert best. induction l as [|[j p] rest IH]; intro best; simpl.
  - split; [apply Qle_refl|]. split; [contradiction|]. left; reflexivity.
  - set (b' := if Qltb (dist2 q p) (snd best) then (j, dist2 q p) else best).
    destruct (IH b') as [H1 [H2 H3]].
    assert (Hb' : snd b' <= snd best /\ snd b' <= dist2 q p).
    { unfold b'. destruct (Qltb (dist2 q p) (snd best)) eqn:E; simpl.
      - apply Qltb_spec in E. split; [apply Qlt_le_weak, E|apply Qle_refl].
      - split; [apply Qle_refl|]. apply Qnot_lt_le. intro C. apply Qltb_spec in C. congruence. }
    split; [eapply Qle_trans; [exact H1|apply Hb']|]. split.
    + intros i p' [E|Hin]; [injection E as -> ->; eapply Qle_trans; [exact H1|apply Hb']|].
      eapply H2; eauto.
    + destruct H3 as [->|[p' [Hin Hd]]]; [|right; exists p'; auto].
      unfold b'. destruct (Qltb (dist2 q p) (snd best)); [right; exists p; auto|left; reflexivity].
Qed.

Lemma nearest_spec points q :
  points <> [] ->
  exists pj, nth_error points (nearest points q) = Some pj /\
    forall p, In p points -> dist2 q pj <= dist2 q p.
Proof.
  intro Hne. destruct points as [|p0 tl]; [congruence|].
  unfold nearest, enumerate. simpl.
  destruct (argmin_from_spec q (combine (seq 1 (length tl)) tl) (0%nat, dist2 q p0))
    as [H1 [H2 H3]].
  set (r := argmin_from q (combine (seq 1 (length tl)) tl) (0%nat, dist2 q p0)) in *.
  assert (Hall : forall p, In p (p0 :: tl) -> snd r <= dist2 q p).
  { intros p [<-|Hp]; [exact H1|].
    apply In_nth_error in Hp as [i Hi].
    apply (H2 (S i)). apply Grid.in_enumerate_from. split; [lia|].
    replace (S i - 1)%nat with i by lia. exact Hi. }
  destruct H3 as [Hr|[p [Hin Hd]]].
  - exists p0. rewrite Hr. split; [reflexivity|]. intros p Hp.
    specialize (Hall p Hp). rewrite Hr in Hall. exact Hall.
  - exists p. apply Grid.in_enumerate_from in Hin as [Hk Hn].
    split.
    + destruct (fst r) as [|k]; [lia|]. simpl. replace (S k - 1)%nat with k in Hn by lia.
      exact Hn.
    + intros p' Hp'. rewrite <- Hd. apply Hall, Hp'.
Qed.










Lemma downsample_nearest pts cap v down idx :
  downsample_points pts cap v = Some (down, idx) ->
  length idx = length down /\
  forall k q j, nth_error down k = Some q -> nth_error idx k = Some j ->
    exists pj, nth_error pts j = Some pj /\ forall p, In p pts -> dist2 q pj <= dist2 q p.
Proof.
  unfold downsample_points. destruct (Nat.leb_spec (length pts) cap) as [Hle|Hgt].
  - intro H. injection H as <- <-. rewrite length_seq. split; [reflexivity|].
    intros k q j Hq Hj.
    assert (Hk : (k < length pts)%nat) by (apply nth_error_Some; congruence).
    rewrite nth_error_nth' with (d := 0%nat) in Hj by (rewrite length_seq; exact Hk).
    injection Hj as <-. rewrite seq_nth by exact Hk. simpl.
    exists q. split; [exact Hq|]. intros p _. rewrite (Dbscan.dist2_self q). apply dist2_nonneg.
  - destruct (voxel_down_sample v pts) as [d|]; [|discriminate].
    intro H. injection H as <- <-. rewrite length_map. split; [reflexivity|].
    intros k q j Hq Hj. rewrite nth_error_map, Hq in Hj. simpl in Hj. injection Hj as <-.
    apply nearest_spec. destruct pts; simpl in Hgt; [lia|discriminate].
Qed.

End DownsampleFacts.

(* ------------------------------------------------------------------ *)
(** ** Facts about the metadata *)
Module MetadataFacts.
Import Metadata.



Lemma percentile20_bounds zs m M :
  np_min zs = Some m -> np_max zs = Some M -> m <= percentile20 zs /\ percentile20 zs <= M.
Proof.
  intros Hm HM.
  assert (Hne : zs <> []) by (intro E; subst; discriminate).
  destruct (np_min_spec _ Hne) as [m' [Em [_ Hmin]]]. rewrite Hm in Em. injection Em as <-.
  destruct (np_max_spec _ Hne) as [M' [EM [_ Hmax]]]. rewrite HM in EM. injection EM as <-.
  unfold percentile20.
  set (a := isort Qle_bool zs). set (n := length a).
  assert (Hn : (1 <= n)%nat).
  { unfold n, a. rewrite <- (Permutation_length (isort_perm _ Qle_bool zs)).
    destruct zs; [congruence|simpl; lia]. }
  set (rank := (1 # 5) * inject_Z (Z.of_nat n - 1)).
  assert (Hr0 : 0 <= rank).
  { unfold rank. apply Qmult_le_0_compat; [discriminate|].
    unfold Qle; simpl; lia. }
  assert (Hr1 : rank <= inject_Z (Z.of_nat n - 1)).
  { unfold rank. assert (0 <= inject_Z (Z.of_nat n - 1)) by (unfold Qle; simpl; lia). lra. }
  assert (Hf0 : (0 <= Qfloor rank)%Z).
  { change 0%Z with (Qfloor 0). apply Qfloor_resp_le, Hr0. }
  assert (Hf1 : (Qfloor rank <= Z.of_nat n - 1)%Z).
  { rewrite Zle_Qle. eapply Qle_trans; [apply Qfloor_le|exact Hr1]. }
  set (lo := Z.to_nat (Qfloor rank)).
  assert (Hlo : (lo < n)%nat) by (unfold lo; lia).
  assert (Hloz : inject_Z (Z.of_nat lo) == inject_Z (Qfloor rank)).
  { unfold lo. rewrite Z2Nat.id by exact Hf0. reflexivity. }
  assert (Ht0 : 0 <= rank - inject_Z (Z.of_nat lo)).
  { rewrite Hloz. generalize (Qfloor_le rank). lra. }
  assert (Ht1 : rank - inject_Z (Z.of_nat lo) <= 1).
  { rewrite Hloz. generalize (Qlt_floor rank). rewrite inject_Z_plus. change (inject_Z 1) with 1. intro Hq. lra. }
  assert (Hin : forall i, (i < n)%nat -> m <= nth i a 0 /\ nth i a 0 <= M).
  { intros i Hi. assert (Hx : In (nth i a 0) zs).
    { eapply Permutation_in; [symmetry; apply isort_perm|]. apply nth_In, Hi. }
    split; [apply Hmin, Hx|apply Hmax, Hx]. }
  destruct (Hin lo Hlo) as [L1 L2].
  destruct (Hin (Nat.min (lo + 1) (n - 1))) as [H1 H2]; [lia|].
  fold rank. fold lo.
  set (t := rank - inject_Z (Z.of_nat lo)) in *.
  set (x := nth lo a 0) in *. set (y := nth (Nat.min (lo + 1) (n - 1)) a 0) in *.
  split; nra.
Qed.





Lemma np_min_Some l m : np_min l = Some m -> is_min_of m l.
Proof.
  intro H. assert (Hne : l <> []) by (intro E; subst; discriminate).
  destruct (np_min_spec _ Hne) as [m' [E Hm]]. rewrite H in E. injection E as <-. exact Hm.
Qed.

Lemma np_max_Some l m : np_max l = Some m -> is_max_of m l.
Proof.
  intro H. assert (Hne : l <> []) by (intro E; subst; discriminate).
  destruct (np_max_spec _ Hne) as [m' [E Hm]]. rewrite H in E. injection E as <-. exact Hm.
Qed.


Lemma footprint_below_top pts M :
  np_max (map pz pts) = Some M ->
  forall p, In p (footprint_points pts) -> pz p < M.
Proof.
  intro HM. assert (Hne : map pz pts <> []) by (intro E; rewrite E in HM; discriminate).
  destruct (np_min_spec _ Hne) as [m [Hm _]].
  destruct (percentile20_bounds _ _ _ Hm HM) as [_ Hp].
  intros p Hin. unfold footprint_points in Hin. apply filter_In in Hin as [_ Hlt].
  unfold Qltb in Hlt. apply Bool.negb_true_iff in Hlt.
  apply Qnot_le_lt. intro C. assert (Hle : percentile20 (map pz pts) <= pz p) by (eapply Qle_trans; eauto).
  apply Qle_bool_iff in Hle. congruence.
Qed.

End MetadataFacts.

(* ------------------------------------------------------------------ *)
(** ** [validate_courtyards] *)
Module Courtyards.

(** [CourtyardInfo] (lines 50-56). *)
Record courtyard_info := {
  boundary_2d : list (Q * Q);
  height_m : Q;
  area_m2 : Q;
  wall_height_m : Q
}.

(** Edges of the ring [Polygon(hole)]: shapely closes the ring, so the
    last vertex is joined back to the first. *)
Definition ring_edges (ring : list (Q * Q)) : list ((Q * Q) * (Q * Q)) :=
  combine ring (tl ring ++ firstn 1 ring).

(** [Polygon(hole).area]: GEOS takes the absolute value of the shoelace
    sum of the shell ring (no interior rings here). *)
Definition polygon_area (ring : list (Q * Q)) : Q :=
  Qabs (sumQ (map (fun e => fst (fst e) * snd (snd e) - fst (snd e) * snd (fst e))
                  (ring_edges ring))) / 2.

(** [points[mask]] for a boolean mask of the same length as [points]. *)
Definition bool_mask_select (points : list point) (mask : list bool) : list point :=
  map fst (filter snd (combine points mask)).

Section Validate.
(** [poly.buffer(0.5).contains(Point(x, y))] for the polygon of a hole:
    GEOS's buffer is not modelled, only used through this test. *)
Variable buffered_contains : list (Q * Q) -> Q * Q -> bool.

(** Height of the courtyard floor and of its walls (lines 384-391).
    [points[mask]] raises [IndexError] when the mask (built on at most
    the first 1000 points) is shorter than [points]; [min]/[max] raise on
    an empty array.  The floor height is an exact rational mean, where the
    source takes a float mean. *)
Definition courtyard_heights (points : list point) (hole : list (Q * Q)) : option (Q * Q) :=
  let mask := map (fun p => buffered_contains hole (px p, py p))
                  (firstn (Nat.min (length points) 1000) points) in
  if existsb (fun b => b) mask then
    if (length mask =? length points)%nat then
      let points_in_hole := bool_mask_select points mask in
      let height_m := sumQ (map pz points_in_hole)
                      / inject_Z (Z.of_nat (length points_in_hole)) in
      match np_max (map pz points) with
      | Some zmax => Some (height_m, zmax - height_m)
      | None => None
      end
    else None
  else
    match np_min (map pz points), np_max (map pz points) with
    | Some zmin, Some zmax => Some (zmin, zmax - zmin)
    | _, _ => None
    end.

(** Lines 368-402.  A raising iteration aborts the whole call ([None]). *)
Fixpoint validate_courtyards (points : list point) (holes_2d : list (list (Q * Q)))
    : option (list courtyard_info) :=
  match holes_2d with
  | [] => Some []
  | hole :: rest =>
    if (length hole <? 4)%nat then validate_courtyards points rest
    else
      let area := polygon_area hole in
      if Qltb area 10 || Qltb 2000 area then validate_courtyards points rest
      else
        match courtyard_heights points hole with
        | None => None
        | Some (height_m, wall_height) =>
          match validate_courtyards points rest with
          | None => None
          | Some cs =>
            Some ({| boundary_2d := hole; height_m := height_m; area_m2 := area;
                     wall_height_m := wall_height |} :: cs)
          end
        end
  end.
End Validate.









Lemma courtyards_index_error buffered_contains points holes_2d hole :
  In hole holes_2d -> (4 <= length hole)%nat ->
  10 <= polygon_area hole -> polygon_area hole <= 2000 ->
  (1000 < length points)%nat ->
  (exists p, In p (firstn 1000 points) /\ buffered_contains hole (px p, py p) = true) ->
  validate_courtyards buffered_contains points holes_2d = None.
Proof.
  intros Hin Hlen A1 A2 Hbig [p [Hp Hc]].
  assert (Hheights : courtyard_heights buffered_contains points hole = None).
  { unfold courtyard_heights. replace (Nat.min (length points) 1000) with 1000%nat by lia.
    rewrite (proj2 (existsb_exists _ _)).
    - rewrite length_map, length_firstn. destruct (Nat.eqb_spec (Nat.min 1000 (length points)) (length points)); [lia|reflexivity].
    - exists true. split; [|reflexivity]. apply in_map_iff. exists p. split; assumption. }
  induction holes_2d as [|h rest IH]; [contradiction|]. simpl.
  destruct Hin as [->|Hin].
  - destruct (Nat.ltb_spec (length hole) 4); [lia|].
    assert (Ea : Qltb (polygon_area hole) 10 || Qltb 2000 (polygon_area hole) = false).
    { unfold Qltb. apply Bool.orb_false_iff. split; apply Bool.negb_false_iff, Qle_bool_iff; assumption. }
    rewrite Ea, Hheights. reflexivity.
  - rewrite (IH Hin).
    destruct (length h <? 4)%nat; [reflexivity|].
    destruct (_ || _); [reflexivity|].
    destruct (courtyard_heights buffered_contains points h) as [[? ?]|]; reflexivity.
Qed.

Lemma courtyards_no_error buffered_contains points holes_2d :
  points <> [] -> (length points <= 1000)%nat ->
  exists cs, validate_courtyards buffered_contains points holes_2d = Some cs.
Proof.
  intros Hne Hsmall.
  assert (Hh : forall hole, exists hw, courtyard_heights buffered_contains points hole = Some hw).
  { intro hole. unfold courtyard_heights.
    assert (Hne' : map pz points <> []) by (destruct points; [congruence|discriminate]).
    destruct (Metadata.np_min_spec _ Hne') as [zmin [Em _]].
    destruct (Metadata.np_max_spec _ Hne') as [zmax [EM _]].
    rewrite Em, EM. replace (Nat.min (length points) 1000) with (length points) by lia.
    rewrite firstn_all, length_map, Nat.eqb_refl.
    destruct (existsb _ _); eexists; reflexivity. }
  induction holes_2d as [|hole rest IH]; simpl; [eexists; reflexivity|].
  destruct IH as [cs Hcs].
  destruct (length hole <? 4)%nat; [exists cs; exact Hcs|].
  destruct (_ || _); [exists cs; exact Hcs|].
  destruct (Hh hole) as [[h w] ->]. rewrite Hcs. eexists; reflexivity.
Qed.

End Courtyards.

(* ------------------------------------------------------------------ *)
(** ** Concrete inputs used by the witnesses and counterexamples *)
Module Instances.

(** An oversized cell (132 points, cap 125): 26 copies of each of the
    points [(x, 0, 0)], [x = 0..4], one point [(2, 1.5, 0)] and one point
    [(0, 3, 0)].  Its bounding-box diagonal is 5, so the code's voxel size
    is [5 / cbrt 125 = 1]. *)
Definition demo_cell : list point :=
  flat_map (fun x => repeat (mkp x 0 0) 26) [0; 1; 2; 3; 4]
  ++ [mkp 2 (3 # 2) 0; mkp 0 3 0].

(** Three one-point clusters whose centroids are 2 apart in a row. *)
Definition chain_clusters : list (list point) :=
  [[mkp 0 0 0]; [mkp 2 0 0]; [mkp 4 0 0]].

(** Five points with bounding box [1 x 2 x 2] (diagonal 3); with cap 1
    the code's voxel size is [3 / cbrt 1 = 3]. *)
Definition voxel_demo : list point :=
  [mkp 0 0 0; mkp 1 0 0; mkp 0 2 0; mkp 0 0 2; mkp 0 2 2].

(** A small cell below the cap. *)
Definition small_line : list point := [mkp 0 0 0; mkp 1 0 0; mkp 2 0 0].

Definition demo_config : Segmentation.config :=
  {| Segmentation.grid_size := 100; Segmentation.max_points_per_cluster := 125 |}.

(** Two horizontal roofs: a 10 x 10 grid at [z = 0] (indices 0-99) and a
    10 x 15 grid at [z = 10] (indices 100-249). *)
Definition two_roofs : list point :=
  flat_map (fun i => map (fun j => mkp (inject_Z (Z.of_nat i)) (inject_Z (Z.of_nat j)) 0)
                       (seq 0 10)) (seq 0 10)
  ++ flat_map (fun i => map (fun j => mkp (inject_Z (Z.of_nat i)) (inject_Z (Z.of_nat j)) 10)
                          (seq 0 15)) (seq 0 10).

(** RANSAC draws: 1000 distinct-index triples per round; those of the
    first round all fall in the smaller roof, those of the second round
    in the larger one (the only points left then). *)
Definition roof_draws (round : nat) : list (nat * nat * nat) :=
  match round with
  | O => map (fun k => (k mod 100, (k + 1) mod 100, (k + 10) mod 100)%nat) (seq 0 1000)
  | _ => map (fun k => (k mod 150, (k + 1) mod 150, (k + 15) mod 150)%nat) (seq 0 1000)
  end.

(** A building file without any class-6 point. *)
Definition ground_only : Pipeline.las_file :=
  {| Pipeline.xyz := small_line; Pipeline.classification := [2; 2; 2]%Z |}.

(** Coordinate-wise equality of points. *)
Definition point_eqb (p q : point) : bool :=
  Qeq_bool (px p) (px q) && Qeq_bool (py p) (py q) && Qeq_bool (pz p) (pz q).


(** A 4 x 4 square courtyard outline (area 16). *)
Definition square_hole : list (Q * Q) := [(0, 0); (4, 0); (4, 4); (0, 4)].

(** 1001 copies of the origin: more than the 1000 points sampled by
    [validate_courtyards]. *)
Definition dense_roof : list point := repeat (mkp 0 0 0) 1001.

(** Six points stacked at heights 0 to 5. *)
Definition z_column : list point := map (fun z => mkp 0 0 z) [0; 1; 2; 3; 4; 5].

(** A building file whose three points are all of class 6. *)
Definition roof_only : Pipeline.las_file :=
  {| Pipeline.xyz := small_line; Pipeline.classification := [6; 6; 6]%Z |}.

End Instances.

(* ================================================================== *)
(** * Claims *)


(** C1 (behaviour of the code): in a cell above the cap, every emitted cluster comes from
    a non-noise label of DBSCAN run on the downsampled cell, and its final
    membership is exactly the cell's original points lying strictly within
    [2 eps] of the centroid of that label's downsampled members (it is
    emitted only when this set has at least [min_points] points).  The
    downsampled members are not kept as such. *)
Theorem reexpansion_membership (eps : Q) (min_points cap : nat) (v : Q)
    (cell : list point) (cl : list (list point))
    (Hover : (cap < length cell)%nat)
    (H : Segmentation.process_cell eps min_points cap v cell = Some cl) :
  exists sample idx labels,
    Downsample.downsample_points cell cap v = Some (sample, idx) /\
    Dbscan.fit_predict eps min_points sample = Some labels /\
    forall c, In c cl -> exists label,
      In label labels /\ label <> Dbscan.NOISE /\ (min_points <= length c)%nat /\
      c = filter (fun p => Qltb (dist2 p (mean_point (Segmentation.mask_select sample labels label)))
                                ((eps * 2) * (eps * 2))) cell.
Proof.
  destruct (Segmentation.process_cell_spec _ _ _ _ _ _ H) as [sample [labels [Hs [Hf Hc]]]].
  apply Nat.ltb_lt in Hover. rewrite Hover in Hs. destruct Hs as [idx Hd].
  exists sample, idx, labels. split; [exact Hd|]. split; [exact Hf|].
  intros c Hin. destruct (Hc c Hin) as [label [Hl Hcl]].
  rewrite Hover in Hcl. apply Segmentation.cluster_of_label_spec in Hcl as [Hn [Hm Heq]].
  exists label. auto.
Qed.

Lemma reexpansion_membership_witness :
  exists cl,
    (125 < length Instances.demo_cell)%nat /\
    Segmentation.process_cell 1 2 125 1 Instances.demo_cell = Some cl /\
    exists sample idx labels,
      Downsample.downsample_points Instances.demo_cell 125 1 = Some (sample, idx) /\
      Dbscan.fit_predict 1 2 sample = Some labels /\
      forall c, In c cl -> exists label,
        In label labels /\ label <> Dbscan.NOISE /\ (2 <= length c)%nat /\
        c = filter (fun p => Qltb (dist2 p (mean_point (Segmentation.mask_select sample labels label)))
                                  ((1 * 2) * (1 * 2))) Instances.demo_cell.
Proof.
  destruct (Segmentation.process_cell 1 2 125 1 Instances.demo_cell) as [cl|] eqn:E;
    [|vm_compute in E; discriminate].
  assert (Hl : (125 < length Instances.demo_cell)%nat) by (apply Nat.ltb_lt; vm_compute; reflexivity).
  exists cl. split; [exact Hl|]. split; [reflexivity|].
  exact (reexpansion_membership 1 2 125 1 Instances.demo_cell cl Hl E).
Defined.

(** C1 (failing input): on [demo_cell] (cap 125, [eps = 1],
    [min_points = 2], voxel size 1 as the code computes it), DBSCAN on the
    downsampled cell finds one cluster of five downsampled members
    [(0,0,0) .. (4,0,0)]; the emitted cluster contains no point equal to the
    member [(0,0,0)], which lies exactly [2 eps] from the centroid. *)
Lemma reexpansion_drops_sample_members :
  Downsample.voxel_size_of Instances.demo_cell 125 1 /\
  match Downsample.downsample_points Instances.demo_cell 125 1 with
  | Some (sample, _) =>
    match Dbscan.fit_predict 1 2 sample with
    | Some labels =>
      let members := Segmentation.mask_select sample labels 0 in
      length members = 5%nat /\
      match Segmentation.process_cell 1 2 125 1 Instances.demo_cell with
      | Some [c] =>
        exists s, In s members /\ dist2 s (mkp 0 0 0) == 0 /\
          forallb (fun q => negb (Qeq_bool (dist2 q s) 0)) c = true
      | _ => False
      end
    | None => False
    end
  | None => False
  end.
Proof.
  split.
  - split; [apply Qle_bool_iff; reflexivity|apply Qeq_bool_iff; reflexivity].
  - vm_compute. split; [reflexivity|].
    eexists. split; [left; reflexivity|]. split; [reflexivity|reflexivity].
Qed.

(** C2 (amended): the merge step outputs at most as many buildings as it
    receives clusters; with at least two clusters, the buildings are the
    groups of clusters sharing a DBSCAN label of their centroids (radius
    [2 eps], [min_samples = 1]), and any two clusters whose centroids are
    within [2 eps] of each other land in the same group. *)
Theorem merge_count_and_linkage (clusters : list (list point)) (eps : Q)
    (buildings : list (list point))
    (H : Segmentation.merge_adjacent_clusters clusters eps = Some buildings) :
  (length buildings <= length clusters)%nat /\
  ((2 <= length clusters)%nat ->
   exists labels,
     Dbscan.fit_predict (eps * 2) 1 (map mean_point clusters) = Some labels /\
     buildings = map (Segmentation.vstack_group clusters) (Segmentation.merge_groups labels) /\
     forall i j, (i < length clusters)%nat -> (j < length clusters)%nat ->
       dist2 (mean_point (nth i clusters [])) (mean_point (nth j clusters []))
         <= (eps * 2) * (eps * 2) ->
       exists g, In g (Segmentation.merge_groups labels) /\ In i g /\ In j g).
Proof.
  unfold Segmentation.merge_adjacent_clusters in H.
  destruct (Nat.leb_spec (length clusters) 1) as [Hle|Hgt].
  - injection H as <-. split; [lia|]. intro. lia.
  - destruct (Dbscan.fit_predict (eps * 2) 1 (map mean_point clusters)) as [labels|] eqn:Ef;
      [|discriminate].
    injection H as <-.
    destruct (Dbscan.fit_predict_ms1 _ _ _ Ef) as [Hlen [_ Hsame]].
    rewrite length_map in Hlen, Hsame.
    split.
    + rewrite length_map, <- Hlen. apply Segmentation.merge_groups_length.
    + intros _. exists labels. split; [reflexivity|]. split; [reflexivity|].
      intros i j Hi Hj Hd.
      assert (Hij : Dbscan.get labels i = Dbscan.get labels j).
      { apply Hsame; auto. rewrite !Segmentation.nth_mean_point by assumption.
        apply Qle_bool_iff. exact Hd. }
      exists (np_where (fun x => Z.eqb x (Dbscan.get labels i)) labels).
      split; [|split].
      * unfold Segmentation.merge_groups.
        apply (in_map (fun label => np_where (fun x => Z.eqb x label) labels)).
        apply np_unique_Z_In. apply nth_In. lia.
      * apply Grid.in_np_where. exists (Dbscan.get labels i).
        split; [apply nth_error_nth'; lia|apply Z.eqb_refl].
      * apply Grid.in_np_where. exists (Dbscan.get labels j).
        split; [apply nth_error_nth'; lia|rewrite Hij; apply Z.eqb_refl].
Qed.

Lemma merge_count_and_linkage_witness :
  exists buildings,
    Segmentation.merge_adjacent_clusters Instances.chain_clusters 1 = Some buildings /\
    (length buildings <= length Instances.chain_clusters)%nat /\
    ((2 <= length Instances.chain_clusters)%nat ->
     exists labels,
       Dbscan.fit_predict (1 * 2) 1 (map mean_point Instances.chain_clusters) = Some labels /\
       buildings = map (Segmentation.vstack_group Instances.chain_clusters)
                       (Segmentation.merge_groups labels) /\
       forall i j, (i < length Instances.chain_clusters)%nat ->
         (j < length Instances.chain_clusters)%nat ->
         dist2 (mean_point (nth i Instances.chain_clusters []))
               (mean_point (nth j Instances.chain_clusters [])) <= (1 * 2) * (1 * 2) ->
         exists g, In g (Segmentation.merge_groups labels) /\ In i g /\ In j g).
Proof.
  destruct (Segmentation.merge_adjacent_clusters Instances.chain_clusters 1) as [b|] eqn:E;
    [|vm_compute in E; discriminate].
  exists b. split; [reflexivity|].
  exact (merge_count_and_linkage Instances.chain_clusters 1 b E).
Defined.

(** C2 (counterexample): three one-point clusters at [x = 0, 2, 4] with
    [eps = 1] are merged into a single building although the first and the
    last centroids are 4 apart, farther than [2 eps = 2]. *)
Lemma merge_chains_far_clusters :
  Segmentation.merge_adjacent_clusters Instances.chain_clusters 1
    = Some [[mkp 0 0 0; mkp 2 0 0; mkp 4 0 0]] /\
  ~ (dist2 (mean_point [mkp 0 0 0]) (mean_point [mkp 4 0 0]) <= (1 * 2) * (1 * 2)).
Proof.
  split; [vm_compute; reflexivity|].
  rewrite <- Qle_bool_iff. vm_compute. discriminate.
Qed.

(** C5 (amended): [downsample_points] returns at most as many points as it
    receives, and one index per returned point, each a valid index into the
    input (the count can exceed twice the cap: see below). *)
Theorem downsample_cardinality (pts : list point) (cap : nat) (v : Q)
    (down : list point) (idx : list nat)
    (H : Downsample.downsample_points pts cap v = Some (down, idx)) :
  (length down <= length pts)%nat /\ length idx = length down /\
  (forall k, In k idx -> (k < length pts)%nat).
Proof.
  unfold Downsample.downsample_points in H.
  destruct (Nat.leb_spec (length pts) cap) as [Hle|Hgt].
  - injection H as <- <-. rewrite length_seq. split; [lia|]. split; [reflexivity|].
    intros k Hk. apply in_seq in Hk. lia.
  - destruct (Downsample.voxel_down_sample v pts) as [d|] eqn:Ev; [|discriminate].
    injection H as <- <-. split; [eapply Downsample.voxel_down_sample_length; eauto|].
    rewrite length_map. split; [reflexivity|].
    intros k Hk. apply in_map_iff in Hk as [q [<- _]]. apply Downsample.nearest_lt. lia.
Qed.

Lemma downsample_cardinality_witness :
  exists down idx,
    Downsample.downsample_points Instances.voxel_demo 1 3 = Some (down, idx) /\
    (length down <= length Instances.voxel_demo)%nat /\ length idx = length down /\
    (forall k, In k idx -> (k < length Instances.voxel_demo)%nat).
Proof.
  destruct (Downsample.downsample_points Instances.voxel_demo 1 3) as [[d i]|] eqn:E;
    [|vm_compute in E; discriminate].
  exists d, i. split; [reflexivity|].
  exact (downsample_cardinality Instances.voxel_demo 1 3 d i E).
Defined.

(** C5 (counterexample): five points with cap 1 and the code's voxel size
    [3 = diagonal / cbrt 1] occupy four voxels, so four points are returned,
    more than [2 * cap = 2]. *)
Lemma downsample_exceeds_twice_cap :
  Downsample.voxel_size_of Instances.voxel_demo 1 3 /\
  (1 < length Instances.voxel_demo)%nat /\
  match Downsample.downsample_points Instances.voxel_demo 1 3 with
  | Some (down, _) => length down = 4%nat /\ (2 * 1 < length down)%nat
  | None => False
  end.
Proof.
  split; [split; [apply Qle_bool_iff; reflexivity|apply Qeq_bool_iff; reflexivity]|].
  split; [apply Nat.ltb_lt; reflexivity|].
  vm_compute. split; [reflexivity|]. apply Nat.ltb_lt. reflexivity.
Qed.

(** C7 (amended): every cluster produced by the per-cell step has at least
    [min_points] points and comes from a non-noise DBSCAN label (of DBSCAN
    run on the cell within the cap, on the downsampled cell above it); in a
    cell within the cap every point of a cluster carries that label; the merge
    step returns no more buildings than clusters, each with at least
    [min_points] points.  (In an oversized cell, re-expansion may take in
    points DBSCAN labelled as noise on the sample.) *)
Theorem segmentation_min_size (eps : Q) (min_points : nat) (cfg : Segmentation.config)
    (vs : list point -> nat -> Q) (pts : list point) (buildings : list (list point))
    (H : Segmentation.segment_buildings_optimized eps min_points cfg vs pts = Some buildings) :
  (exists all_clusters,
     Segmentation.all_clusters_of eps min_points cfg vs pts = Some all_clusters /\
     (forall c, In c all_clusters -> (min_points <= length c)%nat) /\
     (length buildings <= length all_clusters)%nat) /\
  (forall b, In b buildings -> (min_points <= length b)%nat) /\
  (forall cap v cell cl, (length cell <= cap)%nat ->
     Segmentation.process_cell eps min_points cap v cell = Some cl ->
     exists labels, Dbscan.fit_predict eps min_points cell = Some labels /\
       forall c, In c cl -> exists label, label <> Dbscan.NOISE /\
         (min_points <= length c)%nat /\
         forall p, In p c -> In (p, label) (combine cell labels)) /\
  (forall cap v cell cl, (cap < length cell)%nat ->
     Segmentation.process_cell eps min_points cap v cell = Some cl ->
     exists sample idx labels,
       Downsample.downsample_points cell cap v = Some (sample, idx) /\
       Dbscan.fit_predict eps min_points sample = Some labels /\
       forall c, In c cl -> exists label,
         In label labels /\ label <> Dbscan.NOISE /\ (min_points <= length c)%nat).
Proof.
  unfold Segmentation.segment_buildings_optimized in H.
  destruct (Segmentation.all_clusters_of eps min_points cfg vs pts) as [all|] eqn:Ea;
    [|discriminate].
  assert (Hall : forall c, In c all -> (min_points <= length c)%nat).
  { unfold Segmentation.all_clusters_of in Ea. eapply Segmentation.process_cells_min; eauto. }
  split; [|split; [|split]].
  - exists all. split; [reflexivity|]. split; [exact Hall|].
    destruct (0 <? length all)%nat; [eapply Segmentation.merge_length; eauto|].
    injection H as <-. simpl. lia.
  - destruct (0 <? length all)%nat; [eapply Segmentation.merge_min; eauto|].
    injection H as <-. contradiction.
  - intros cap v cell cl Hle Hp.
    destruct (Segmentation.process_cell_spec _ _ _ _ _ _ Hp) as [sample [labels [Hs [Hf Hc]]]].
    assert (Hn : (cap <? length cell)%nat = false) by (apply Nat.ltb_ge; exact Hle).
    rewrite Hn in Hs, Hc. subst sample. exists labels. split; [exact Hf|].
    intros c Hin. destruct (Hc c Hin) as [label [_ Hcl]].
    apply Segmentation.cluster_of_label_spec in Hcl as [Hnl [Hm ->]].
    exists label. split; [exact Hnl|]. split; [exact Hm|].
    intros p Hp'. apply Segmentation.mask_select_In. exact Hp'.
  - intros cap v cell cl Hover Hp.
    destruct (Segmentation.process_cell_spec _ _ _ _ _ _ Hp) as [sample [labels [Hs [Hf Hc]]]].
    apply Nat.ltb_lt in Hover. rewrite Hover in Hs. destruct Hs as [idx Hd].
    exists sample, idx, labels. split; [exact Hd|]. split; [exact Hf|].
    intros c Hin. destruct (Hc c Hin) as [label [Hl Hcl]].
    rewrite Hover in Hcl. apply Segmentation.cluster_of_label_spec in Hcl as [Hn [Hm _]].
    exists label. auto.
Qed.

Lemma segmentation_min_size_witness :
  exists buildings,
    Segmentation.segment_buildings_optimized 1 2 Instances.demo_config (fun _ _ => 1)
      Instances.small_line = Some buildings /\
    (exists all_clusters,
       Segmentation.all_clusters_of 1 2 Instances.demo_config (fun _ _ => 1)
         Instances.small_line = Some all_clusters /\
       (forall c, In c all_clusters -> (2 <= length c)%nat) /\
       (length buildings <= length all_clusters)%nat) /\
    (forall b, In b buildings -> (2 <= length b)%nat) /\
    (forall cap v cell cl, (length cell <= cap)%nat ->
       Segmentation.process_cell 1 2 cap v cell = Some cl ->
       exists labels, Dbscan.fit_predict 1 2 cell = Some labels /\
         forall c, In c cl -> exists label, label <> Dbscan.NOISE /\
           (2 <= length c)%nat /\
           forall p, In p c -> In (p, label) (combine cell labels)) /\
    (forall cap v cell cl, (cap < length cell)%nat ->
       Segmentation.process_cell 1 2 cap v cell = Some cl ->
       exists sample idx labels,
         Downsample.downsample_points cell cap v = Some (sample, idx) /\
         Dbscan.fit_predict 1 2 sample = Some labels /\
         forall c, In c cl -> exists label,
           In label labels /\ label <> Dbscan.NOISE /\ (2 <= length c)%nat).
Proof.
  destruct (Segmentation.segment_buildings_optimized 1 2 Instances.demo_config (fun _ _ => 1)
              Instances.small_line) as [b|] eqn:E; [|vm_compute in E; discriminate].
  exists b. split; [reflexivity|].
  exact (segmentation_min_size 1 2 Instances.demo_config (fun _ _ => 1) Instances.small_line b E).
Defined.

(** C7 (counterexample): on [demo_cell] (cap 125, [eps = 1],
    [min_points = 2], voxel size 1), DBSCAN on the downsampled cell labels
    the sample point [(2, 1.5, 0)] as noise, yet the single emitted cluster
    contains the original point [(2, 1.5, 0)], which lies 1.5 from the
    cluster centroid [(2, 0, 0)], within [2 eps]. *)
Lemma reexpansion_admits_noise_point :
  Downsample.voxel_size_of Instances.demo_cell 125 1 /\
  match Downsample.downsample_points Instances.demo_cell 125 1 with
  | Some (sample, _) =>
    match Dbscan.fit_predict 1 2 sample with
    | Some labels =>
      existsb (fun pl => Instances.point_eqb (fst pl) (mkp 2 (3 # 2) 0)
                         && Z.eqb (snd pl) Dbscan.NOISE) (combine sample labels) = true /\
      match Segmentation.process_cell 1 2 125 1 Instances.demo_cell with
      | Some [c] => In (mkp 2 (3 # 2) 0) c
      | _ => False
      end
    | None => False
    end
  | None => False
  end.
Proof.
  split.
  - split; [apply Qle_bool_iff; reflexivity|apply Qeq_bool_iff; reflexivity].
  - vm_compute. split; [reflexivity|]. repeat (first [left; reflexivity | right]).
Qed.

(** C6: for a non-empty building, [compute_building_metadata] succeeds; its
    bounding box holds the per-axis minima and maxima of the points (each
    one a coordinate of some point, below resp. above all of them), the
    center is the arithmetic mean, the height is the z-extent of the box,
    and the area is [0] when no point lies strictly below the 20th
    percentile of z and otherwise the x-extent times the y-extent of those
    points. *)
Theorem metadata_spec (building_id : String.string) (pts : list point) (planes : list nat)
    (nc : nat) (Hne : pts <> []) :
  exists m,
    Metadata.compute_building_metadata building_id pts planes nc = Some m /\
    Metadata.is_min_of (px (Metadata.bbox_min m)) (map px pts) /\ Metadata.is_max_of (px (Metadata.bbox_max m)) (map px pts) /\
    Metadata.is_min_of (py (Metadata.bbox_min m)) (map py pts) /\ Metadata.is_max_of (py (Metadata.bbox_max m)) (map py pts) /\
    Metadata.is_min_of (pz (Metadata.bbox_min m)) (map pz pts) /\ Metadata.is_max_of (pz (Metadata.bbox_max m)) (map pz pts) /\
    Metadata.center m = mkp (sumQ (map px pts) / inject_Z (Z.of_nat (length pts)))
                   (sumQ (map py pts) / inject_Z (Z.of_nat (length pts)))
                   (sumQ (map pz pts) / inject_Z (Z.of_nat (length pts))) /\
    Metadata.height_m m = pz (Metadata.bbox_max m) - pz (Metadata.bbox_min m) /\
    (Metadata.footprint_points pts = [] -> Metadata.area_m2 m = 0) /\
    (Metadata.footprint_points pts <> [] -> exists fx0 fx1 fy0 fy1,
       Metadata.is_min_of fx0 (map px (Metadata.footprint_points pts)) /\
       Metadata.is_max_of fx1 (map px (Metadata.footprint_points pts)) /\
       Metadata.is_min_of fy0 (map py (Metadata.footprint_points pts)) /\
       Metadata.is_max_of fy1 (map py (Metadata.footprint_points pts)) /\
       Metadata.area_m2 m = (fx1 - fx0) * (fy1 - fy0)).
Proof.
  destruct (Metadata.np_min_spec (map px pts) (Metadata.map_ne _ _ Hne)) as [x0 [Ex0 Hx0]].
  destruct (Metadata.np_min_spec (map py pts) (Metadata.map_ne _ _ Hne)) as [y0 [Ey0 Hy0]].
  destruct (Metadata.np_min_spec (map pz pts) (Metadata.map_ne _ _ Hne)) as [z0 [Ez0 Hz0]].
  destruct (Metadata.np_max_spec (map px pts) (Metadata.map_ne _ _ Hne)) as [x1 [Ex1 Hx1]].
  destruct (Metadata.np_max_spec (map py pts) (Metadata.map_ne _ _ Hne)) as [y1 [Ey1 Hy1]].
  destruct (Metadata.np_max_spec (map pz pts) (Metadata.map_ne _ _ Hne)) as [z1 [Ez1 Hz1]].
  unfold Metadata.compute_building_metadata. rewrite Ex0, Ey0, Ez0, Ex1, Ey1, Ez1.
  cbv zeta.
  destruct (Metadata.footprint_points pts) as [|f fr] eqn:Ef.
  - eexists. split; [reflexivity|]. cbn [Metadata.bbox_min Metadata.bbox_max Metadata.center Metadata.height_m Metadata.area_m2 px py pz].
    destruct Hx0, Hx1, Hy0, Hy1, Hz0, Hz1. repeat split; auto.
    intro C. exfalso. apply C. reflexivity.
  - assert (Hfne : f :: fr <> []) by discriminate.
    destruct (Metadata.np_min_spec (map px (f :: fr)) (Metadata.map_ne _ _ Hfne)) as [fx0 [Efx0 Hfx0]].
    destruct (Metadata.np_max_spec (map px (f :: fr)) (Metadata.map_ne _ _ Hfne)) as [fx1 [Efx1 Hfx1]].
    destruct (Metadata.np_min_spec (map py (f :: fr)) (Metadata.map_ne _ _ Hfne)) as [fy0 [Efy0 Hfy0]].
    destruct (Metadata.np_max_spec (map py (f :: fr)) (Metadata.map_ne _ _ Hfne)) as [fy1 [Efy1 Hfy1]].
    assert (Hl : (0 <? length (f :: fr))%nat = true) by reflexivity.
    rewrite Hl, Efx0, Efx1, Efy0, Efy1.
    eexists. split; [reflexivity|]. cbn [Metadata.bbox_min Metadata.bbox_max Metadata.center Metadata.height_m Metadata.area_m2 px py pz].
    destruct Hx0, Hx1, Hy0, Hy1, Hz0, Hz1. repeat split; auto. discriminate.
    intros _. exists fx0, fx1, fy0, fy1. auto.
Qed.

Lemma metadata_spec_witness : Instances.small_line <> [] /\
  exists m, Metadata.compute_building_metadata String.EmptyString Instances.small_line [] 0 = Some m /\
    Metadata.height_m m = pz (Metadata.bbox_max m) - pz (Metadata.bbox_min m).
Proof.
  assert (Hne : Instances.small_line <> []) by discriminate. split; [exact Hne|].
  destruct (metadata_spec String.EmptyString Instances.small_line [] 0 Hne)
    as [m [E [_ [_ [_ [_ [_ [_ [_ [Hh _]]]]]]]]]].
  exists m. split; [exact E|exact Hh].
Defined.

(** C10: when no point of a non-empty building lies strictly below the 20th
    percentile of its z values (e.g. all points at the same height),
    [compute_building_metadata] still returns metadata, with area [0]. *)
Theorem flat_footprint_area_zero (building_id : String.string) (pts : list point)
    (planes : list nat) (nc : nat) (Hne : pts <> [])
    (Hflat : forall p, In p pts -> ~ (pz p < Metadata.percentile20 (map pz pts))) :
  exists m, Metadata.compute_building_metadata building_id pts planes nc = Some m /\ Metadata.area_m2 m = 0.
Proof.
  destruct (Metadata.np_min_spec (map px pts) (Metadata.map_ne _ _ Hne)) as [x0 [Ex0 _]].
  destruct (Metadata.np_min_spec (map py pts) (Metadata.map_ne _ _ Hne)) as [y0 [Ey0 _]].
  destruct (Metadata.np_min_spec (map pz pts) (Metadata.map_ne _ _ Hne)) as [z0 [Ez0 _]].
  destruct (Metadata.np_max_spec (map px pts) (Metadata.map_ne _ _ Hne)) as [x1 [Ex1 _]].
  destruct (Metadata.np_max_spec (map py pts) (Metadata.map_ne _ _ Hne)) as [y1 [Ey1 _]].
  destruct (Metadata.np_max_spec (map pz pts) (Metadata.map_ne _ _ Hne)) as [z1 [Ez1 _]].
  assert (Hfp : Metadata.footprint_points pts = []).
  { unfold Metadata.footprint_points.
    destruct (filter _ pts) as [|q r] eqn:E; [reflexivity|].
    assert (Hq : In q (q :: r)) by (left; reflexivity). rewrite <- E in Hq.
    apply filter_In in Hq as [Hq Hlt]. exfalso. apply (Hflat q Hq).
    unfold Qltb in Hlt. apply negb_true_iff in Hlt. apply Qnot_le_lt.
    intro C. apply Qle_bool_iff in C. congruence. }
  unfold Metadata.compute_building_metadata. rewrite Ex0, Ey0, Ez0, Ex1, Ey1, Ez1. cbv zeta.
  rewrite Hfp. eexists. split; reflexivity.
Qed.

Lemma flat_footprint_area_zero_witness :
  exists m, Metadata.compute_building_metadata String.EmptyString Instances.small_line [] 0 = Some m /\ Metadata.area_m2 m = 0.
Proof.
  apply (flat_footprint_area_zero String.EmptyString Instances.small_line [] 0).
  - discriminate.
  - intros p Hp. simpl in Hp.
    repeat (destruct Hp as [<-|Hp]; [intro C; vm_compute in C; discriminate|]). contradiction.
Defined.



(** C4 (amended): the plane extractor returns at most 5 planes, each with
    at least 100 inliers, and their inlier counts sum to at most the number
    of input points (inliers leave the pool after each extraction); the
    order of the counts is not constrained. *)
Theorem plane_extraction_bounds (distance_threshold : Q)
    (draws : nat -> list (nat * nat * nat)) (points : list point) :
  let planes := Ransac.extract_planes_ransac distance_threshold draws points in
  (length planes <= 5)%nat /\ (forall pl, In pl planes -> (100 <= snd pl)%nat) /\
  (Ransac.num_points_sum planes <= length points)%nat.
Proof. apply Ransac.extract_loop_spec. Qed.

(** C4 (counterexample): on [two_roofs] with threshold 0.3, when the draws
    of the first round all fall in the smaller roof (a possible outcome of
    RANSAC's random sampling), the first plane has 100 inliers and the
    second 150. *)
Lemma plane_counts_increase :
  map snd (Ransac.extract_planes_ransac (3 # 10) Instances.roof_draws Instances.two_roofs)
    = [100; 150]%nat /\ (100 < 150)%nat.
Proof. split; [vm_compute; reflexivity|lia]. Qed.

(** C9: a file without any point of class 6 only adds the warning
    [NoBuildingPoints] to the log: metadata, meshes and the building counter
    are unchanged, and processing goes on with the next file; a run on that
    file alone succeeds with no building and that single warning. *)
Theorem no_building_points_skipped
    (segment : list point -> option (list (list point)))
    (process_building : nat -> list point -> option (Metadata.building_metadata * Mesh.mesh))
    (st : Pipeline.state) (f : Pipeline.las_file) (rest : list Pipeline.las_file)
    (Hno : ~ In 6%Z (Pipeline.classification f)) :
  Pipeline.process_files segment process_building st (f :: rest)
    = Pipeline.process_files segment process_building
        {| Pipeline.metadata := Pipeline.metadata st;
           Pipeline.all_buildings := Pipeline.all_buildings st;
           Pipeline.building_counter := Pipeline.building_counter st;
           Pipeline.log := Pipeline.log st ++ [(Pipeline.WARNING, Pipeline.NoBuildingPoints)] |}
        rest /\
  exists st', Pipeline.process_all segment process_building [f] = Some st' /\
    Pipeline.all_buildings st' = [] /\ Pipeline.metadata st' = [] /\
    Pipeline.log st' = [(Pipeline.WARNING, Pipeline.NoBuildingPoints)].
Proof.
  assert (He : Pipeline.extract_buildings (Pipeline.xyz f) (Pipeline.classification f) = [])
    by (apply Pipeline.extract_buildings_none; exact Hno).
  split.
  - simpl. unfold Pipeline.process_file. rewrite He. reflexivity.
  - eexists. split.
    + unfold Pipeline.process_all. simpl. unfold Pipeline.process_file. rewrite He. reflexivity.
    + split; [|split]; reflexivity.
Qed.

Lemma no_building_points_skipped_witness :
  ~ In 6%Z (Pipeline.classification Instances.ground_only) /\
  exists st', Pipeline.process_all (fun _ => None) (fun _ _ => None) [Instances.ground_only]
                = Some st' /\
    Pipeline.all_buildings st' = [] /\ Pipeline.metadata st' = [] /\
    Pipeline.log st' = [(Pipeline.WARNING, Pipeline.NoBuildingPoints)].
Proof.
  assert (Hno : ~ In 6%Z (Pipeline.classification Instances.ground_only)).
  { simpl. intros [H|[H|[H|[]]]]; discriminate. }
  split; [exact Hno|].
  exact (proj2 (no_building_points_skipped (fun _ => None) (fun _ _ => None)
                  Pipeline.empty_state Instances.ground_only [] Hno)).
Defined.

(* ================================================================== *)
(** * Further properties of the code *)

(** [merge_adjacent_clusters] neither loses nor duplicates points: the
    merged buildings, concatenated, are a permutation of the input
    clusters concatenated. *)
Theorem merge_adjacent_preserves_points clusters eps buildings :
  Segmentation.merge_adjacent_clusters clusters eps = Some buildings ->
  Permutation (concat buildings) (concat clusters).
Proof. exact (SegmentationFacts.merge_preserves_points clusters eps buildings). Qed.

Lemma merge_adjacent_preserves_points_witness :
  exists buildings,
    Segmentation.merge_adjacent_clusters Instances.chain_clusters 1 = Some buildings /\
    Permutation (concat buildings) (concat Instances.chain_clusters).
Proof.
  destruct (Segmentation.merge_adjacent_clusters Instances.chain_clusters 1) as [b|] eqn:E;
    [|vm_compute in E; discriminate].
  exists b. split; [reflexivity|].
  exact (merge_adjacent_preserves_points Instances.chain_clusters 1 b E).
Defined.

(** Every point of every building returned by
    [segment_buildings_optimized] is a point of its input. *)
Theorem segmentation_output_from_input eps min_points cfg vs pts buildings :
  Segmentation.segment_buildings_optimized eps min_points cfg vs pts = Some buildings ->
  forall b p, In b buildings -> In p b -> In p pts.
Proof. exact (SegmentationFacts.segmentation_points_from_input eps min_points cfg vs pts buildings). Qed.

Lemma segmentation_output_from_input_witness :
  exists buildings,
    Segmentation.segment_buildings_optimized 1 2 Instances.demo_config (fun _ _ => 1)
      Instances.small_line = Some buildings /\
    forall b p, In b buildings -> In p b -> In p Instances.small_line.
Proof.
  destruct (Segmentation.segment_buildings_optimized 1 2 Instances.demo_config (fun _ _ => 1)
              Instances.small_line) as [b|] eqn:E; [|vm_compute in E; discriminate].
  exists b. split; [reflexivity|].
  exact (segmentation_output_from_input 1 2 Instances.demo_config (fun _ _ => 1)
           Instances.small_line b E).
Defined.

(** [segment_buildings_optimized] returns no building for an empty
    input; with [eps <= 0] or [min_samples = 0] it raises (DBSCAN's
    parameter check) on any non-empty input. *)
Theorem segmentation_invalid_parameters eps min_points cfg vs pts :
  Segmentation.segment_buildings_optimized eps min_points cfg vs [] = Some [] /\
  (eps <= 0 \/ min_points = 0%nat -> pts <> [] ->
   Segmentation.segment_buildings_optimized eps min_points cfg vs pts = None).
Proof.
  split.
  - exact (proj1 (SegmentationFacts.segmentation_empty_or_invalid eps min_points cfg vs []) eq_refl).
  - intros Hbad Hne.
    exact (proj2 (SegmentationFacts.segmentation_empty_or_invalid eps min_points cfg vs pts) Hne Hbad).
Qed.

Lemma segmentation_invalid_parameters_witness :
  Segmentation.segment_buildings_optimized 0 2 Instances.demo_config (fun _ _ => 1)
    Instances.small_line = None.
Proof.
  apply (proj2 (segmentation_invalid_parameters 0 2 Instances.demo_config (fun _ _ => 1)
                  Instances.small_line)).
  - left. apply Qle_refl.
  - discriminate.
Defined.

(** [downsample_points] returns one index per kept point, and the index
    kept for each sampled point designates an input point at the least
    distance from it (the identity when the input is within the cap). *)
Theorem downsample_points_nearest pts cap v down idx :
  Downsample.downsample_points pts cap v = Some (down, idx) ->
  length idx = length down /\
  forall k q j, nth_error down k = Some q -> nth_error idx k = Some j ->
    exists pj, nth_error pts j = Some pj /\ forall p, In p pts -> dist2 q pj <= dist2 q p.
Proof. exact (DownsampleFacts.downsample_nearest pts cap v down idx). Qed.

Lemma downsample_points_nearest_witness :
  exists down idx,
    Downsample.downsample_points Instances.voxel_demo 1 3 = Some (down, idx) /\
    length idx = length down.
Proof.
  destruct (Downsample.downsample_points Instances.voxel_demo 1 3) as [[d i]|] eqn:E;
    [|vm_compute in E; discriminate].
  exists d, i. split; [reflexivity|].
  exact (proj1 (downsample_points_nearest Instances.voxel_demo 1 3 d i E)).
Defined.





(** The 20th percentile used for the footprint lies between the least
    and the greatest of the values. *)
Theorem percentile20_within_range zs zmin zmax :
  np_min zs = Some zmin -> np_max zs = Some zmax ->
  zmin <= Metadata.percentile20 zs /\ Metadata.percentile20 zs <= zmax.
Proof. exact (MetadataFacts.percentile20_bounds zs zmin zmax). Qed.

Lemma percentile20_within_range_witness :
  0 <= Metadata.percentile20 [0; 1; 2; 3; 4; 5] /\ Metadata.percentile20 [0; 1; 2; 3; 4; 5] <= 5.
Proof. apply percentile20_within_range; reflexivity. Defined.

(** The footprint of a building never contains a point at its greatest
    height: every footprint point lies strictly below the maximum z. *)
Theorem footprint_strictly_below_top pts zmax :
  np_max (map pz pts) = Some zmax ->
  forall p, In p (Metadata.footprint_points pts) -> pz p < zmax.
Proof. exact (MetadataFacts.footprint_below_top pts zmax). Qed.

Lemma footprint_strictly_below_top_witness :
  Forall (fun p => pz p < 5) (Metadata.footprint_points Instances.z_column).
Proof. apply Forall_forall. apply footprint_strictly_below_top. reflexivity. Defined.



(** On a building of more than 1000 points, [validate_courtyards] raises
    (the mask built on the first 1000 points does not fit [points]) as
    soon as a hole that passes the vertex and area filters contains one
    of the first 1000 points. *)
Theorem courtyards_raise_on_large_input buffered_contains points holes_2d hole :
  In hole holes_2d -> (4 <= length hole)%nat ->
  10 <= Courtyards.polygon_area hole -> Courtyards.polygon_area hole <= 2000 ->
  (1000 < length points)%nat ->
  (exists p, In p (firstn 1000 points) /\ buffered_contains hole (px p, py p) = true) ->
  Courtyards.validate_courtyards buffered_contains points holes_2d = None.
Proof. exact (Courtyards.courtyards_index_error buffered_contains points holes_2d hole). Qed.

Lemma courtyards_raise_on_large_input_witness :
  Courtyards.validate_courtyards (fun _ _ => true) Instances.dense_roof [Instances.square_hole]
    = None.
Proof.
  apply (courtyards_raise_on_large_input (fun _ _ => true) Instances.dense_roof
           [Instances.square_hole] Instances.square_hole).
  - left. reflexivity.
  - simpl. lia.
  - apply Qle_bool_imp_le. vm_compute. reflexivity.
  - apply Qle_bool_imp_le. vm_compute. reflexivity.
  - vm_compute. lia.
  - exists (mkp 0 0 0). split; [|reflexivity]. vm_compute. left. reflexivity.
Defined.

(** On a non-empty building of at most 1000 points,
    [validate_courtyards] never raises. *)
Theorem courtyards_total_on_small_input buffered_contains points holes_2d :
  points <> [] -> (length points <= 1000)%nat ->
  exists cs, Courtyards.validate_courtyards buffered_contains points holes_2d = Some cs.
Proof. exact (Courtyards.courtyards_no_error buffered_contains points holes_2d). Qed.

Lemma courtyards_total_on_small_input_witness :
  exists cs, Courtyards.validate_courtyards (fun _ _ => false) Instances.small_line
               [Instances.square_hole] = Some cs.
Proof.
  apply courtyards_total_on_small_input; [discriminate|simpl; lia].
Defined.

(** After a run of [process_all], there is one mesh per metadata entry,
    and the building counter equals the number of processed buildings
    plus the number of buildings logged as failed. *)
Theorem pipeline_building_accounting segment process_building laz_files st :
  Pipeline.process_all segment process_building laz_files = Some st ->
  length (Pipeline.metadata st) = length (Pipeline.all_buildings st) /\
  (length (Pipeline.metadata st) + Pipeline.count_failures (Pipeline.log st))%nat =
    Pipeline.building_counter st.
Proof. exact (Pipeline.process_all_counts segment process_building laz_files st). Qed.

Lemma pipeline_building_accounting_witness :
  exists st,
    Pipeline.process_all (fun pts => Some [pts; pts]) (fun _ _ => None) [Instances.roof_only]
      = Some st /\
    (length (Pipeline.metadata st) + Pipeline.count_failures (Pipeline.log st))%nat =
      Pipeline.building_counter st.
Proof.
  destruct (Pipeline.process_all (fun pts => Some [pts; pts]) (fun _ _ => None)
              [Instances.roof_only]) as [st|] eqn:E; [|vm_compute in E; discriminate].
  exists st. split; [reflexivity|].
  exact (proj2 (pipeline_building_accounting _ _ _ st E)).
Defined.

(** A segmentation that raises on the building points of any file aborts
    the whole run of [process_all], whatever the other files. *)
Theorem segmentation_failure_aborts_run segment process_building pre f rest :
  Pipeline.extract_buildings (Pipeline.xyz f) (Pipeline.classification f) <> [] ->
  segment (Pipeline.extract_buildings (Pipeline.xyz f) (Pipeline.classification f)) = None ->
  Pipeline.process_all segment process_building (pre ++ f :: rest) = None.
Proof. exact (Pipeline.process_all_segment_error segment process_building pre f rest). Qed.

Lemma segmentation_failure_aborts_run_witness :
  Pipeline.process_all
    (Segmentation.segment_buildings_optimized 0 2 Instances.demo_config (fun _ _ => 1))
    (fun _ _ => None) ([Instances.ground_only] ++ Instances.roof_only :: []) = None.
Proof.
  apply segmentation_failure_aborts_run.
  - vm_compute. discriminate.
  - vm_compute. reflexivity.
Defined.
